(** * cursor-agent-acp: a shallow embedding of the ACP bridge

    The development follows the two TypeScript sources of the bridge:
    - [cursor-agent.ts]: the [CursorAgent] class, which owns one
      [cursor-agent] subprocess, splits its standard output into lines and
      classifies every line ([processOutput]), writes prompts to its standard
      input ([sendMessage]) and terminates it ([stop]);
    - [acp-agent.ts]: the [CursorAcpAgent] class, which keeps the session
      registry and implements [newSession], [prompt], [cancel] and the
      forwarding of subprocess messages ([handleCursorAgentMessage]).

    The tool mapper ([tools.ts]) is imported by [acp-agent.ts] and exercised
    by [tests/acp-agent.test.ts]; the part of it used below is modelled in
    [Module Tools].

    JavaScript strings are sequences of UTF-16 code units; they are modelled
    as [list N], so that [String.prototype.trim] can be given with the
    white space of the language.  Mutable objects become records that are
    passed explicitly; a call that may throw returns a [completion]. *)

From Stdlib Require Import NArith List Ascii String Lia DecimalString Floats.
From stdpp Require Import gmap list.

#[local] Set Warnings "-register-all".

(** ** JavaScript strings *)

Abbreviation str := (list N).

(** An ASCII literal as a JavaScript string. *)
Definition lit (s : string) : str := map N_of_ascii (list_ascii_of_string s).
Arguments lit s%_string : simpl never.

(** Line feed, the separator of [this.buffer.split("\n")]. *)
Definition LF : N := 10.

(** Double quote (a code unit, written by its code). *)
Definition DQ : N := 34.

(** A string used as a condition is true when it is not empty. *)
Definition truthy (s : str) : bool :=
  match s with [] => false | _ :: _ => true end.

(** [s.split(sep)] for a separator of one code unit: the segments between
    the separators, in order; never the empty array. *)
Fixpoint split (sep : N) (s : str) : list str :=
  match s with
  | [] => [[]]
  | c :: s' =>
      if N.eqb c sep then [] :: split sep s'
      else match split sep s' with
           | l :: ls => (c :: l) :: ls
           | [] => [[c]]
           end
  end.

(** [lines.pop()]: the array without its last element, and that element
    ([None] stands for [undefined], on the empty array). *)
Definition pop {A} (l : list A) : list A * option A := (removelast l, last l).

(** [x || ""] for [x] a string or [undefined]. *)
Definition or_empty (x : option str) : str :=
  match x with Some s => s | None => [] end.

(** White space and line terminators, the code units [trim] strips. *)
Definition is_white (c : N) : bool :=
  ((9 <=? c) && (c <=? 13) || (c =? 32) || (c =? 160) || (c =? 5760)
   || (8192 <=? c) && (c <=? 8202) || (c =? 8232) || (c =? 8233)
   || (c =? 8239) || (c =? 8287) || (c =? 12288) || (c =? 65279))%N.

Fixpoint trimStart (s : str) : str :=
  match s with
  | c :: s' => if is_white c then trimStart s' else s
  | [] => []
  end.

Definition trim (s : str) : str := rev (trimStart (rev (trimStart s))).

(** [s.startsWith(p)] *)
Fixpoint startsWith (p s : str) : bool :=
  match p, s with
  | [], _ => true
  | a :: p', b :: s' => N.eqb a b && startsWith p' s'
  | _ :: _, [] => false
  end.

(** Decimal digits of a natural number, as [String(n)] gives them. *)
Definition decimal (n : N) : str := lit (NilEmpty.string_of_uint (N.to_uint n)).

(** ** JSON values and completions *)

(** What [JSON.parse] returns.  Objects keep their own properties in order. *)
Inductive json :=
| JNull
| JBool (b : bool)
| JNumber (x : float)
| JString (s : str)
| JArray (items : list json)
| JObject (fields : list (str * json)).

(** Errors the two classes raise. *)
Inductive error :=
| Error (message : str)
| TypeError.

(** The outcome of a call: a value, or a raised error. *)
Inductive completion (A : Type) :=
| Return (a : A)
| Throw (e : error).
Arguments Return {A} a.
Arguments Throw {A} e.

(** Own property of an object literal. *)
Fixpoint field (k : str) (fields : list (str * json)) : option json :=
  match fields with
  | [] => None
  | (k', v) :: rest => if decide (k = k') then Some v else field k rest
  end.

(** ** cursor-agent.ts *)

Module CursorAgent.

(** The two signals [stop] sends. *)
Inductive Signal := SIGTERM | SIGKILL.

(** The handle [spawn] returns, as far as the class uses it: the three
    streams ([stdin] as the list of chunks written to it, [None] when the
    stream is missing) and the signals sent with [kill]. *)
Record ChildProcess := {
  stdin : option (list str);
  stdout : bool;
  stderr : bool;
  signals : list Signal;
}.

Inductive OutputFormat := format_text | format_json.

Record CursorAgentOptions := {
  cwd : option str;
  model : option str;
  outputFormat : option OutputFormat;
  sessionId : option str;
}.

(** The private fields of the class. *)
Record t := {
  process : option ChildProcess;
  buffer : str;
  isRunning : bool;
  options : CursorAgentOptions;
}.

(** [new CursorAgent(options)] *)
Definition new (o : CursorAgentOptions) : t :=
  {| process := None; buffer := []; isRunning := false; options := o |}.

Definition set_buffer (a : t) (b : str) : t :=
  {| process := process a; buffer := b; isRunning := isRunning a; options := options a |}.

Definition set_isRunning (a : t) (r : bool) : t :=
  {| process := process a; buffer := buffer a; isRunning := r; options := options a |}.

Definition set_process (a : t) (p : option ChildProcess) : t :=
  {| process := p; buffer := buffer a; isRunning := isRunning a; options := options a |}.

Definition set_sessionId (a : t) (id : str) : t :=
  {| process := process a; buffer := buffer a; isRunning := isRunning a;
     options := {| cwd := cwd (options a); model := model (options a);
                   outputFormat := outputFormat (options a); sessionId := Some id |} |}.

(** An optional string option counts when it is present and not empty. *)
Definition given (o : option str) : option str :=
  match o with
  | Some s => if truthy s then Some s else None
  | None => None
  end.

(** The arguments [start] passes to [spawn]. *)
Definition start_args (o : CursorAgentOptions) : list str :=
  (match given (model o) with Some m => [lit "--model"; m] | None => [] end)
  ++ (match outputFormat o with
      | Some format_text => [lit "--output-format"; lit "text"]
      | Some format_json => [lit "--output-format"; lit "json"]
      | None => []
      end)
  ++ (match given (sessionId o) with Some s => [lit "--resume"; s] | None => [] end)
  ++ [lit "-p"; []].

(** [start()], given the handle [spawn] returns for [start_args]. *)
Definition start (a : t) (child : ChildProcess) : t * completion unit :=
  if isRunning a then (a, Throw (Error (lit "CursorAgent is already running")))
  else
    let a1 := set_process a (Some child) in
    match stdin child with
    | Some _ =>
        if stdout child && stderr child
        then (set_isRunning a1 true, Return tt)
        else (a1, Throw (Error (lit "Failed to create cursor-agent process streams")))
    | None => (a1, Throw (Error (lit "Failed to create cursor-agent process streams")))
    end.

(** The listeners [start] attaches to the process: exit and error. *)
Definition on_exit (a : t) : t := set_isRunning a false.
Definition on_error (a : t) : t := set_isRunning a false.

Section Output.

(** [JSON.parse]: [None] when it throws. *)
Variable JSON_parse : str -> option json.

(** The body of the loop of [processOutput] for a line that is not blank:
    the parsed value, or the record of plain assistant text. *)
Definition classify (line : str) : json :=
  match JSON_parse line with
  | Some parsed => parsed
  | None => JObject [(lit "type", JString (lit "assistant")); (lit "content", JString line)]
  end.

(** The messages one line gives: none when [line.trim()] is empty. *)
Definition emit_line (line : str) : list json :=
  if truthy (trim line) then [classify line] else [].

(** [processOutput()]: the new state and the ["message"] events emitted, in
    order. *)
Definition processOutput (a : t) : t * list json :=
  let '(lines, tail) := pop (split LF (buffer a)) in
  (set_buffer a (or_empty tail), flat_map emit_line lines).

(** The listener of [stdout]'s ["data"] event; [data] is [data.toString()]. *)
Definition on_data (a : t) (data : str) : t * list json :=
  processOutput (set_buffer a (buffer a ++ data)).

(** A sequence of chunks, one ["data"] event each. *)
Fixpoint feed (a : t) (chunks : list str) : t * list json :=
  match chunks with
  | [] => (a, [])
  | data :: rest =>
      let '(a1, out1) := on_data a data in
      let '(a2, out2) := feed a1 rest in
      (a2, out1 ++ out2)
  end.

End Output.

(** The message type of the class: [type] and [content], and an optional
    session id. *)
Inductive MessageType := user | assistant | system.

Record CursorAgentMessage := {
  type : MessageType;
  content : str;
  message_sessionId : option str;
}.

(** [sendMessage(message)]: writes the content and a line feed to the
    standard input of the process. *)
Definition sendMessage (a : t) (message : CursorAgentMessage) : t * completion unit :=
  match isRunning a, process a with
  | true, Some p =>
      match stdin p with
      | Some written =>
          let p' := {| stdin := Some (written ++ [content message ++ [LF]]);
                       stdout := stdout p; stderr := stderr p; signals := signals p |} in
          (set_process a (Some p'), Return tt)
      | None => (a, Throw (Error (lit "CursorAgent is not running")))
      end
  | _, _ => (a, Throw (Error (lit "CursorAgent is not running")))
  end.

(** [isAlive()] *)
Definition isAlive (a : t) : bool :=
  isRunning a && match process a with Some _ => true | None => false end.

(** [this.process.kill(signal)] *)
Definition kill (p : ChildProcess) (s : Signal) : ChildProcess :=
  {| stdin := stdin p; stdout := stdout p; stderr := stderr p;
     signals := signals p ++ [s] |}.

(** The delay of the timer [stop] arms, in milliseconds. *)
Definition grace_ms : N := 5000.

(** How the promise of [stop] was settled.  [not_running]: the guard at the
    top returned.  [exit_event]: the ["exit"] listener cleared the timer and
    resolved, [after] milliseconds after SIGTERM.  [timer]: the timer fired
    first, sent SIGKILL and resolved without waiting for the ["exit"] event.
    The handle is reported as [stop] leaves it, with the signals sent. *)
Inductive Stopped :=
| not_running
| exit_event (after : N) (child : ChildProcess)
| timer (child : ChildProcess).

(** [stop()].  The subprocess is outside the program: [exit_delay] is the
    time, in milliseconds after SIGTERM, at which its ["exit"] event would
    fire ([None]: it does not exit on SIGTERM).  The listener wins the race
    when the event comes before the [grace_ms] of the timer. *)
Definition stop (a : t) (exit_delay : option N) : t * Stopped :=
  match isRunning a, process a with
  | true, Some p =>
      let p1 := kill p SIGTERM in
      let a' := set_process (set_isRunning a false) None in
      match exit_delay with
      | Some d => if (d <? grace_ms)%N then (a', exit_event d p1) else (a', timer (kill p1 SIGKILL))
      | None => (a', timer (kill p1 SIGKILL))
      end
  | _, _ => (a, not_running)
  end.

(** Milliseconds from the call of [stop] to the settling of its promise. *)
Definition resolved_after (r : Stopped) : N :=
  match r with
  | not_running => 0
  | exit_event d _ => d
  | timer _ => grace_ms
  end.

(** The signals [stop] sent. *)
Definition sent (before : t) (r : Stopped) : list Signal :=
  match r, process before with
  | exit_event _ c, Some p | timer c, Some p => drop (length (signals p)) (signals c)
  | _, _ => []
  end.

(** Whether it was the exit of the subprocess that settled the promise. *)
Definition exited_when_resolved (r : Stopped) : bool :=
  match r with
  | exit_event _ _ => true
  | timer _ => false
  | not_running => false
  end.

(** [resumeSession(sessionId)] *)
Definition resumeSession (a : t) (id : str) (exit_delay : option N) (child : ChildProcess)
  : t * completion unit :=
  let a1 := set_sessionId a id in
  let a2 := if isRunning a1 then fst (stop a1 exit_delay) else a1 in
  start a2 child.

(** *** Values for the examples *)

Definition no_options : CursorAgentOptions :=
  {| cwd := None; model := None; outputFormat := None; sessionId := None |}.

(** A process with its three streams, nothing written, no signal sent. *)
Definition piped_child : ChildProcess :=
  {| stdin := Some []; stdout := true; stderr := true; signals := [] |}.

(** An agent after [start]. *)
Definition started : t := fst (start (new no_options) piped_child).

(** A stand-in for [JSON.parse] that accepts the literal [null] only. *)
Definition parse_null (line : str) : option json :=
  if decide (line = lit "null") then Some JNull else None.

End CursorAgent.

(** ** tools.ts (the tool mapper)

    [acp-agent.ts] imports [toolInfoFromToolUse] and
    [toolUpdateFromToolResult] from [tools.ts], and
    [tests/acp-agent.test.ts] fixes their results on sample inputs; the file
    itself is not among the sources.  The types below are those of the
    results the tests compare with. *)

Module Tools.

Inductive ToolKind := execute | search | think | edit | read | fetch.

(** [{ path, line? }] *)
Record Location := {
  loc_path : str;
  loc_line : option N;
}.

(** An entry of [content]: a text block, or a diff ([oldText] is [null] when
    the previous text is not known). *)
Inductive ToolCallContent :=
| content_text (text : str)
| diff (path : str) (oldText : option str) (newText : str).

(** The descriptor [toolInfoFromToolUse] returns; [locations] is absent on
    some tools. *)
Record ToolInfo := {
  kind : ToolKind;
  title : str;
  content : list ToolCallContent;
  locations : option (list Location);
}.

(** The update [toolUpdateFromToolResult] returns: [{}] or [{ content }]. *)
Record ToolUpdate := {
  update_content : option (list ToolCallContent);
}.

(** *** Reading a file *)

(** The two read tools of the tests: [Read], whose input names the file as
    [file_path], and [mcp__acp__read], whose input names it as [abs_path]. *)
Inductive ReadTool := Read | mcp__acp__read.

Record ReadInput := {
  read_path : str;
  offset : option N;
  limit : option N;
}.

(** Modelled from the spec: the range suffix of the read case of
    [toolInfoFromToolUse] ([tools.ts] is missing).  Section 4.5: offset and
    limit combine into a 1-indexed inclusive range when both are given, a
    "(1 - limit)" suffix when only limit is given, and a
    "(from line offset+1)" suffix when only offset is given. *)
Definition rangeSuffix (offset limit : option N) : str :=
  match offset, limit with
  | None, None => []
  | None, Some l => lit " (1 - " ++ decimal l ++ lit ")"
  | Some o, Some l => lit " (" ++ decimal (o + 1) ++ lit " - " ++ decimal (o + l) ++ lit ")"
  | Some o, None => lit " (from line " ++ decimal (o + 1) ++ lit ")"
  end.

(** Modelled from the spec: the read case of [toolInfoFromToolUse]
    ([tools.ts] is missing).  Section 4.5 gives the generic title
    "Read File", the title with the path, the range suffix and the location
    with the raw offset, 0 by default.  The tests fix which tool has which
    title: [Read] keeps the generic one ("should handle Read tool calls"),
    [mcp__acp__read] names the path ("should handle mcp__acp__read tool
    calls"). *)
Definition readToolInfo (tool : ReadTool) (input : ReadInput) : ToolInfo :=
  {| kind := read;
     title := lit "Read "
              ++ (match tool with Read => lit "File" | mcp__acp__read => read_path input end)
              ++ rangeSuffix (offset input) (limit input);
     content := [];
     locations := Some [ {| loc_path := read_path input;
                            loc_line := Some (match offset input with Some o => o | None => 0%N end) |} ] |}.

(** *** Editing a file in several steps *)

(** [s.indexOf(p)]: the first position at which [p] occurs in [s]. *)
Fixpoint indexOf (p s : str) {struct s} : option nat :=
  if startsWith p s then Some 0
  else match s with
       | [] => None
       | _ :: s' => S <$> indexOf p s'
       end.

(** The text with the first occurrence of [p] replaced by [r]; unchanged
    when [p] does not occur. *)
Fixpoint replaceFirst (p r s : str) {struct s} : str :=
  if startsWith p s then r ++ drop (length p) s
  else match s with
       | [] => []
       | c :: s' => c :: replaceFirst p r s'
       end.

(** The text with every occurrence of [p] replaced by [r], from left to
    right, occurrences not overlapping; [skip] counts the code units of the
    occurrence just replaced that are still to be passed over. *)
Fixpoint replaceAllFrom (p r : str) (skip : nat) (s : str) {struct s} : str :=
  match skip with
  | S k => match s with
           | [] => []
           | _ :: s' => replaceAllFrom p r k s'
           end
  | O =>
      if startsWith p s then
        r ++ match s with
             | [] => []
             | c :: s' =>
                 match p with
                 | [] => c :: replaceAllFrom p r 0 s'
                 | _ :: p' => replaceAllFrom p r (length p') s'
                 end
             end
      else match s with
           | [] => []
           | c :: s' => c :: replaceAllFrom p r 0 s'
           end
  end.

Definition replaceAll (p r s : str) : str := replaceAllFrom p r 0 s.

(** The zero-indexed line of position [i] of [s]: the line feeds before it. *)
Definition lineAt (s : str) (i : nat) : N :=
  N.of_nat (length (List.filter (N.eqb LF) (take i s))).

(** One operation of a multi-edit. *)
Record EditOp := {
  old_string : str;
  new_string : str;
  replace_all : bool;
}.

Record MultiEditInput := {
  file_path : str;
  edits : list EditOp;
}.

(** Modelled from the spec: one operation of the multi-edit case
    ([tools.ts] is missing).  Section 4.5: the search text is replaced by
    the replacement text, at its first occurrence or, with [replace_all],
    at every occurrence. *)
Definition applyEdit (s : str) (e : EditOp) : str :=
  if replace_all e then replaceAll (old_string e) (new_string e) s
  else replaceFirst (old_string e) (new_string e) s.

(** The text operation [k] of a list is applied to: the operations before
    it, folded over the original. *)
Definition textBefore (k : nat) (es : list EditOp) (s : str) : str :=
  fold_left applyEdit (take k es) s.

(** Modelled from the spec: the location one operation of the multi-edit
    case contributes ([tools.ts] is missing).  Section 4.5: each operation
    contributes one location, whose line is the zero-indexed line at which
    the first occurrence of the search text begins, in the text the
    operation is applied to.  Where the search text does not occur the spec
    gives no line: the location names the path alone. *)
Definition editLocation (path : str) (s : str) (e : EditOp) : Location :=
  {| loc_path := path;
     loc_line := match indexOf (old_string e) s with
                 | Some i => Some (lineAt s i)
                 | None => None
                 end |}.

(** Modelled from the spec: the loop of the multi-edit case of
    [toolInfoFromToolUse] ([tools.ts] is missing).  Section 4.5: the
    operations are applied in order, each to the text the operations before
    it have produced, and each reports the line of its first occurrence in
    that text. *)
Fixpoint applyEdits (path : str) (s : str) (es : list EditOp) : str * list Location :=
  match es with
  | [] => (s, [])
  | e :: rest =>
      let '(final, locs) := applyEdits path (applyEdit s e) rest in
      (final, editLocation path s e :: locs)
  end.

(** Modelled from the spec: the multi-edit case of [toolInfoFromToolUse]
    ([tools.ts] is missing), on the file-content cache.  Section 4.5 and the
    test "should show full diff for multi edit tool": kind edit, title
    "Edit <path>", one diff from the cached text to the final text, one
    location per operation.  Without a cached text the old text is [null]
    (section 3: no previous content) and the operations start from the
    empty text. *)
Definition multiEditToolInfo (input : MultiEditInput) (cachedFileContent : gmap str str)
  : ToolInfo :=
  let cached := cachedFileContent !! file_path input in
  let '(final, locs) := applyEdits (file_path input) (or_empty cached) (edits input) in
  {| kind := edit;
     title := lit "Edit " ++ file_path input;
     content := [diff (file_path input) cached final];
     locations := Some locs |}.

(** *** Results *)

(** A block of a tool result: text, or something else. *)
Inductive ResultBlock :=
| result_text (text : str)
| result_other.

Record ToolResult := {
  result_content : list ResultBlock;
  tool_use_id : str;
  is_error : bool;
}.

(** A tool invocation as [acp-agent.ts] caches it ([ToolUseCache]):
    [{ type: "tool_use", id, name, input }], the input of any shape. *)
Record ToolUse := {
  id : str;
  name : str;
  input : json;
}.

(** The text blocks of a result, in order. *)
Definition resultTexts (bs : list ResultBlock) : list str :=
  flat_map (fun b => match b with result_text t => [t] | result_other => [] end) bs.

(** Modelled from the spec: [toolUpdateFromToolResult] ([tools.ts] is
    missing).  Section 4.5: without the error flag the result gives no
    update; with it, an update that carries the text of the result.  The
    tests "should return empty update for successful edit result" and
    "should return content update for edit failure" give the two shapes. *)
Definition toolUpdateFromToolResult (toolResult : ToolResult) (toolUse : ToolUse) : ToolUpdate :=
  if is_error toolResult
  then {| update_content := Some (map content_text (resultTexts (result_content toolResult))) |}
  else {| update_content := None |}.

(** *** The inputs of the tests *)

(** A string between double quotes. *)
Definition quoted (s : str) : str := [DQ] ++ s ++ [DQ].

(** [JSON.stringify({ version: 1, filler: "filler", enabled: false }, null, 4)]
    with the given values of [version] and [enabled]. *)
Definition config_json (version enabled : str) : str :=
  lit "{" ++ [LF]
  ++ lit "    " ++ quoted (lit "version") ++ lit ": " ++ version ++ lit "," ++ [LF]
  ++ lit "    " ++ quoted (lit "filler") ++ lit ": " ++ quoted (lit "filler") ++ lit "," ++ [LF]
  ++ lit "    " ++ quoted (lit "enabled") ++ lit ": " ++ enabled ++ [LF]
  ++ lit "}".

(** The input and the cache of "should show full diff for multi edit tool". *)
Definition test_multi_edit : MultiEditInput :=
  {| file_path := lit "/Users/test/project/config.json";
     edits :=
       [ {| old_string := lit "version" ++ [DQ] ++ lit ": 1";
            new_string := lit "version" ++ [DQ] ++ lit ": 2";
            replace_all := false |};
         {| old_string := lit "enabled" ++ [DQ] ++ lit ": false";
            new_string := lit "enabled" ++ [DQ] ++ lit ": true";
            replace_all := true |} ] |}.

Definition test_fileCache : gmap str str :=
  {[ lit "/Users/test/project/config.json" := config_json (lit "1") (lit "false") ]}.

(** The invocation of the two tests of [toolUpdateFromToolResult]. *)
Definition test_edit_toolUse : ToolUse :=
  {| id := lit "toolu_01MNO345";
     name := lit "mcp__acp__edit";
     input := JObject [ (lit "abs_path", JString (lit "/Users/test/project/test.txt"));
                        (lit "old_string", JString (lit "old"));
                        (lit "new_string", JString (lit "new")) ] |}.

End Tools.

(** ** acp-agent.ts *)

Module Acp.

Import CursorAgent.

(** *** Prompts *)

(** The resource of an embedded block: text, or binary data. *)
Inductive ResourceContents :=
| TextResourceContents (uri : str) (text : str)
| BlobResourceContents (uri : str) (blob : str).

(** The blocks of a prompt; [other_block] is a block of a type the switch of
    [promptToCursorAgent] leaves to its default case. *)
Inductive ContentBlock :=
| text_block (text : str)
| resource_link (uri : str)
| resource (r : ResourceContents)
| image (data : str) (mimeType : str) (uri : option str)
| other_block.

Record PromptRequest := {
  sessionId : str;
  prompt_blocks : list ContentBlock;
}.

Inductive StopReason := end_turn | refusal.

Record PromptResponse := {
  stopReason : StopReason;
}.

(** [a || b] on strings. *)
Definition or_str (a b : str) : str := if truthy a then a else b.

(** The last element of [s.split("/")]. *)
Definition last_segment (s : str) : str := or_empty (last (split 47 s)).

(** [formatUriAsLink(uri)] *)
Definition formatUriAsLink (uri : str) : str :=
  if startsWith (lit "file://") uri then
    let path := drop 7 uri in
    let name := or_str (last_segment path) path in
    lit "[@" ++ name ++ lit "](" ++ uri ++ lit ")"
  else if startsWith (lit "zed://") uri then
    let name := or_str (last_segment uri) uri in
    lit "[@" ++ name ++ lit "](" ++ uri ++ lit ")"
  else uri.

(** What one block appends to the content. *)
Definition chunk_text (chunk : ContentBlock) : str :=
  match chunk with
  | text_block t => t
  | resource_link uri => formatUriAsLink uri
  | resource (TextResourceContents uri t) =>
      formatUriAsLink uri
      ++ [LF] ++ lit "<context ref=" ++ [DQ] ++ uri ++ [DQ] ++ lit ">" ++ [LF]
      ++ t ++ [LF] ++ lit "</context>"
  | resource (BlobResourceContents _ _) => []
  | image data mimeType uri =>
      if truthy data then [LF] ++ lit "[Image: " ++ mimeType ++ lit "]" ++ [LF]
      else match uri with
           | Some u => if truthy u then [LF] ++ lit "[Image: " ++ u ++ lit "]" ++ [LF] else []
           | None => []
           end
  | other_block => []
  end.

(** [promptToCursorAgent(prompt)] *)
Definition promptToCursorAgent (prompt : PromptRequest) : CursorAgentMessage :=
  {| type := user;
     content := trim (flat_map chunk_text (prompt_blocks prompt));
     message_sessionId := Some (sessionId prompt) |}.

(** *** Sessions and notifications *)

Record Session := {
  cursorAgent : CursorAgent.t;
  cancelled : bool;
  messages : list CursorAgentMessage;
}.

Definition set_cancelled (s : Session) (c : bool) : Session :=
  {| cursorAgent := cursorAgent s; cancelled := c; messages := messages s |}.

(** The updates of the protocol (section 6 of the spec): a chunk of agent
    text, the report of a tool call, the update of a reported tool call.  A
    chunk is [{ type: "text", text }], with the value that was assigned to
    [text] ([None]: [undefined]). *)
Inductive SessionUpdate :=
| agent_message_chunk (text : option json)
| tool_call (toolCallId : str) (info : Tools.ToolInfo)
| tool_call_update (toolCallId : str) (update : Tools.ToolUpdate).

Record SessionNotification := {
  notification_sessionId : str;
  update : SessionUpdate;
}.

(** [this.sessions] is created as [{}]: reading a property that is not its
    own falls through to [Object.prototype].  These are the names found
    there; each holds a function, [__proto__] the prototype itself. *)
Definition Object_prototype : list str :=
  [ lit "constructor"; lit "__defineGetter__"; lit "__defineSetter__";
    lit "hasOwnProperty"; lit "__lookupGetter__"; lit "__lookupSetter__";
    lit "isPrototypeOf"; lit "propertyIsEnumerable"; lit "toString";
    lit "valueOf"; lit "__proto__"; lit "toLocaleString" ].

(** The state of a [CursorAcpAgent]: the sessions, the notifications passed
    to [client.sessionUpdate] so far, and the [cancelled] property that
    [prompt] and [cancel] have left on a built-in object reached under an
    inherited name.  The caches of the class ([toolUseCache],
    [fileContentCache], [backgroundTerminals]) are left out: the methods
    below do not read or write them. *)
Record t := {
  sessions : gmap str Session;
  builtin_cancelled : gmap str bool;
  client_updates : list SessionNotification;
}.

(** [new CursorAcpAgent(client)] *)
Definition new : t :=
  {| sessions := ∅; builtin_cancelled := ∅; client_updates := [] |}.

Definition set_session (a : t) (id : str) (s : Session) : t :=
  {| sessions := <[id := s]> (sessions a);
     builtin_cancelled := builtin_cancelled a;
     client_updates := client_updates a |}.

Definition set_builtin_cancelled (a : t) (k : str) (c : bool) : t :=
  {| sessions := sessions a;
     builtin_cancelled := <[k := c]> (builtin_cancelled a);
     client_updates := client_updates a |}.

Definition sessionUpdate (a : t) (n : SessionNotification) : t :=
  {| sessions := sessions a;
     builtin_cancelled := builtin_cancelled a;
     client_updates := client_updates a ++ [n] |}.

(** The value of [this.sessions[sessionId]]: a session stored under the
    id; a built-in object, under a name of [Object_prototype]; the boolean
    that a call under [__proto__] has assigned to [Object.prototype.cancelled],
    under the name [cancelled]; or [undefined]. *)
Inductive Lookup :=
| own (s : Session)
| inherited
| inherited_flag (b : bool)
| absent.

Definition lookup_session (a : t) (id : str) : Lookup :=
  match sessions a !! id with
  | Some s => own s
  | None =>
      if bool_decide (id ∈ Object_prototype) then inherited
      else if bool_decide (id = lit "cancelled") then
        match builtin_cancelled a !! lit "__proto__" with
        | Some b => inherited_flag b
        | None => absent
        end
      else absent
  end.

(** The value passes the guard [if (!session)]. *)
Definition found (l : Lookup) : bool :=
  match l with
  | own _ => true
  | inherited => true
  | inherited_flag b => b
  | absent => false
  end.

(** [session.cancelled] read on the built-in object under the inherited
    name [k]: its own property, else the one of [Object.prototype]. *)
Definition read_builtin_cancelled (a : t) (k : str) : bool :=
  match builtin_cancelled a !! k with
  | Some c => c
  | None => match builtin_cancelled a !! lit "__proto__" with
            | Some c => c
            | None => false
            end
  end.

(** [message.content]: [None] when reading it throws (on [null]). *)
Definition message_content (message : json) : option (option json) :=
  match message with
  | JNull => None
  | JObject fields => Some (field (lit "content") fields)
  | _ => Some None
  end.

(** [handleCursorAgentMessage(sessionId, message)].  On the boolean found
    under the name [cancelled] the guard returns either way: [false] fails
    [!session], and [true] reads its own [cancelled] as the [true] of
    [Object.prototype]. *)
Definition handleCursorAgentMessage (a : t) (sessionId : str) (message : json)
  : t * completion unit :=
  let forward :=
    match message_content message with
    | Some text =>
        (sessionUpdate a {| notification_sessionId := sessionId;
                            update := agent_message_chunk text |},
         Return tt)
    | None => (a, Throw TypeError)
    end in
  match lookup_session a sessionId with
  | absent => (a, Return tt)
  | own session => if cancelled session then (a, Return tt) else forward
  | inherited => if read_builtin_cancelled a sessionId then (a, Return tt) else forward
  | inherited_flag _ => (a, Return tt)
  end.

(** The [try] block of [prompt], on the session found. *)
Definition prompt_try (a : t) (params : PromptRequest) (session : Session)
  : t * completion PromptResponse :=
  let message := promptToCursorAgent params in
  match sendMessage (cursorAgent session) message with
  | (agent', Return _) =>
      (set_session a (sessionId params)
         {| cursorAgent := agent'; cancelled := cancelled session;
            messages := messages session ++ [message] |},
       Return {| stopReason := end_turn |})
  | (_, Throw _) => (a, Return {| stopReason := refusal |})
  end.

(** [prompt(params)].  The flag is cleared before the [try] block.
    [sendMessage] does not suspend, so the body runs as one step.  Under an
    inherited name the object found has no [cursorAgent]: the call of
    [sendMessage] throws inside the [try].  On the boolean [true] the
    assignment [session.cancelled = false], in strict code and before the
    [try], throws a [TypeError]; the boolean [false] fails the guard. *)
Definition prompt (a : t) (params : PromptRequest) : t * completion PromptResponse :=
  match lookup_session a (sessionId params) with
  | absent => (a, Throw (Error (lit "Session not found")))
  | own session =>
      let session1 := set_cancelled session false in
      prompt_try (set_session a (sessionId params) session1) params session1
  | inherited =>
      (set_builtin_cancelled a (sessionId params) false, Return {| stopReason := refusal |})
  | inherited_flag true => (a, Throw TypeError)
  | inherited_flag false => (a, Throw (Error (lit "Session not found")))
  end.

(** [cancel(params)].  On the boolean [true] the assignment
    [session.cancelled = true] throws a [TypeError]. *)
Definition cancel (a : t) (sessionId : str) : t * completion unit :=
  match lookup_session a sessionId with
  | absent => (a, Throw (Error (lit "Session not found")))
  | own session => (set_session a sessionId (set_cancelled session true), Return tt)
  | inherited => (set_builtin_cancelled a sessionId true, Return tt)
  | inherited_flag true => (a, Throw TypeError)
  | inherited_flag false => (a, Throw (Error (lit "Session not found")))
  end.

(** [newSession(params)]: [sessionId] is the value of [uuidv7()], [child]
    the handle [spawn] returns to [start]. *)
Definition newSession (a : t) (sessionId : str) (cwd : str) (child : ChildProcess)
  : t * completion str :=
  let agent := CursorAgent.new {| CursorAgent.cwd := Some cwd; model := None;
                                  outputFormat := Some format_json;
                                  CursorAgent.sessionId := None |} in
  match start agent child with
  | (agent', Return _) =>
      (set_session a sessionId {| cursorAgent := agent'; cancelled := false; messages := [] |},
       Return sessionId)
  | (_, Throw e) => (a, Throw e)
  end.

(** *** The agent as a machine *)

Section Machine.

Variable JSON_parse : str -> option json.

(** The ["message"] listener of [newSession], over the messages of one
    ["data"] event.  The listener does not wait for the handler, and an
    error of the handler does not reach the emitter. *)
Fixpoint forward_all (a : t) (sessionId : str) (ms : list json) : t :=
  match ms with
  | [] => a
  | m :: rest => forward_all (fst (handleCursorAgentMessage a sessionId m)) sessionId rest
  end.

(** What happens to the agent: calls of the client, and events of the
    subprocess of a session (a message handed to the handler, a chunk of
    standard output, the exit of the process, an error of the process).
    The events of a subprocess reach the session that owns it. *)
Inductive event :=
| call_newSession (sessionId : str) (cwd : str) (child : ChildProcess)
| call_prompt (params : PromptRequest)
| call_cancel (sessionId : str)
| subprocess_message (sessionId : str) (message : json)
| subprocess_data (sessionId : str) (data : str)
| subprocess_exit (sessionId : str)
| subprocess_error (sessionId : str).

Definition step (a : t) (e : event) : t :=
  match e with
  | call_newSession id cwd child => fst (newSession a id cwd child)
  | call_prompt params => fst (prompt a params)
  | call_cancel id => fst (cancel a id)
  | subprocess_message id m => fst (handleCursorAgentMessage a id m)
  | subprocess_data id data =>
      match sessions a !! id with
      | Some s =>
          let '(agent', ms) := on_data JSON_parse (cursorAgent s) data in
          forward_all
            (set_session a id {| cursorAgent := agent'; cancelled := cancelled s;
                                 messages := messages s |})
            id ms
      | None => a
      end
  | subprocess_exit id =>
      match sessions a !! id with
      | Some s =>
          set_session a id {| cursorAgent := on_exit (cursorAgent s); cancelled := cancelled s;
                              messages := messages s |}
      | None => a
      end
  | subprocess_error id =>
      match sessions a !! id with
      | Some s =>
          set_session a id {| cursorAgent := on_error (cursorAgent s); cancelled := cancelled s;
                              messages := messages s |}
      | None => a
      end
  end.

Definition run (a : t) (es : list event) : t := fold_left step es a.

End Machine.

(** The notifications sent for one session. *)
Definition updates_for (id : str) (a : t) : list SessionNotification :=
  List.filter (fun n => bool_decide (notification_sessionId n = id)) (client_updates a).

(** An event that hands the session [id] a cleared flag: a prompt on it, or
    a new session stored under the same id. *)
Definition resets (id : str) (e : event) : bool :=
  match e with
  | call_prompt params => bool_decide (sessionId params = id)
  | call_newSession id' _ _ => bool_decide (id' = id)
  | _ => false
  end.

(** Whether an update is a chunk of agent text. *)
Definition is_message_chunk (u : SessionUpdate) : bool :=
  match u with
  | agent_message_chunk _ => true
  | _ => false
  end.

(** A record with the shape of a tool invocation:
    [{ type: "tool_use", ... }]. *)
Definition tool_shaped (message : json) : bool :=
  match message with
  | JObject fields =>
      match field (lit "type") fields with
      | Some (JString s) => bool_decide (s = lit "tool_use")
      | _ => false
      end
  | _ => false
  end.

(** *** Values for the examples *)

(** The agent after one [newSession], which got the id "s1". *)
Definition one_session : t :=
  fst (newSession new (lit "s1") (lit "/tmp") piped_child).

(** The session stored under "s1". *)
Definition session_s1 : Session :=
  {| cursorAgent :=
       fst (start (CursorAgent.new {| CursorAgent.cwd := Some (lit "/tmp"); model := None;
                                      outputFormat := Some format_json;
                                      CursorAgent.sessionId := None |})
              piped_child);
     cancelled := false;
     messages := [] |}.

(** A record of the subprocess with the shape of a tool invocation. *)
Definition tool_use_record : json :=
  JObject [ (lit "type", JString (lit "tool_use"));
            (lit "id", JString (lit "toolu_01"));
            (lit "name", JString (lit "Bash"));
            (lit "input", JObject [ (lit "command", JString (lit "ls")) ]) ].

(** A record of plain assistant text. *)
Definition hello_record : json :=
  JObject [ (lit "type", JString (lit "assistant")); (lit "content", JString (lit "hello")) ].

(** A prompt of one text block on the session "s1". *)
Definition prompt_s1 : PromptRequest :=
  {| sessionId := lit "s1"; prompt_blocks := [text_block (lit "hi")] |}.

End Acp.

(** ** acp-agent.ts: the file requests and their cache *)

Module FileCache.

(** [ReadTextFileRequest]: the path, and the optional first line and number
    of lines of a partial read. *)
Record ReadTextFileRequest := {
  read_path : str;
  line : option N;
  limit : option N;
}.

Record WriteTextFileRequest := {
  write_path : str;
  write_content : str;
}.

(** [!x] on an optional number: true on [undefined], [null] and 0. *)
Definition not_given (x : option N) : bool :=
  match x with
  | None => true
  | Some n => N.eqb n 0
  end.

(** [this.fileContentCache[path] = content].  The cache is created as
    [{}]: the assignment makes an own property, except under the name
    [__proto__], whose setter ignores a string. *)
Definition cache_set (cache : gmap str str) (path content : str) : gmap str str :=
  if decide (path = lit "__proto__") then cache else <[path := content]> cache.

(** [readTextFile(params)], given what [client.readTextFile] answers: the
    content, or an error. *)
Definition readTextFile (cache : gmap str str) (params : ReadTextFileRequest)
    (response : completion str) : gmap str str * completion str :=
  match response with
  | Return content =>
      (if not_given (limit params) && not_given (line params)
       then cache_set cache (read_path params) content
       else cache,
       Return content)
  | Throw e => (cache, Throw e)
  end.

(** [writeTextFile(params)], given what [client.writeTextFile] answers. *)
Definition writeTextFile (cache : gmap str str) (params : WriteTextFileRequest)
    (response : completion unit) : gmap str str * completion unit :=
  match response with
  | Return r => (cache_set cache (write_path params) (write_content params), Return r)
  | Throw e => (cache, Throw e)
  end.

(** A file request with the answer of the client. *)
Inductive file_call :=
| read_call (params : ReadTextFileRequest) (response : completion str)
| write_call (params : WriteTextFileRequest) (response : completion unit).

Definition file_step (cache : gmap str str) (c : file_call) : gmap str str :=
  match c with
  | read_call params response => fst (readTextFile cache params response)
  | write_call params response => fst (writeTextFile cache params response)
  end.

(** The content a request shows for a path: the content a write has
    written, the content a read of the whole file has returned. *)
Definition shown (path : str) (c : file_call) : option str :=
  match c with
  | write_call params (Return _) =>
      if decide (write_path params = path) then Some (write_content params) else None
  | read_call params (Return content) =>
      match limit params, line params with
      | (None | Some 0%N), (None | Some 0%N) =>
          if decide (read_path params = path) then Some content else None
      | _, _ => None
      end
  | _ => None
  end.

(** The content the latest request of a list shows for a path. *)
Fixpoint last_shown (path : str) (cs : list file_call) : option str :=
  match cs with
  | [] => None
  | c :: rest =>
      match last_shown path rest with
      | Some content => Some content
      | None => shown path c
      end
  end.

End FileCache.

(** ** Notions for the properties of the registry *)

(** The session an event names. *)
Definition event_session (e : Acp.event) : str :=
  match e with
  | Acp.call_newSession id _ _ => id
  | Acp.call_prompt params => Acp.sessionId params
  | Acp.call_cancel id => id
  | Acp.subprocess_message id _ => id
  | Acp.subprocess_data id _ => id
  | Acp.subprocess_exit id => id
  | Acp.subprocess_error id => id
  end.

(** An event that stores a new session under the id. *)
Definition creates (id : str) (e : Acp.event) : bool :=
  match e with
  | Acp.call_newSession id' _ _ => bool_decide (id' = id)
  | _ => false
  end.

(** The notification [handleCursorAgentMessage] builds. *)
Definition chunk_for (id : str) (value : option json) : Acp.SessionNotification :=
  {| Acp.notification_sessionId := id; Acp.update := Acp.agent_message_chunk value |}.

(** The notifications for a list of messages: one for each message whose
    [content] can be read. *)
Definition chunks_for (id : str) (ms : list json) : list Acp.SessionNotification :=
  chunk_for id <$> omap Acp.message_content ms.

(** A block of a prompt that [promptToCursorAgent] passes over: a resource
    without text, an image without data and without uri, a block of another
    type. *)
Definition passed_over (chunk : Acp.ContentBlock) : bool :=
  match chunk with
  | Acp.resource (Acp.BlobResourceContents _ _) => true
  | Acp.image data _ uri =>
      negb (truthy data) && match uri with Some u => negb (truthy u) | None => true end
  | Acp.other_block => true
  | _ => false
  end.

(** A running agent holds a process with a standard input: the states
    [start] leaves running. *)
Definition consistent (a : CursorAgent.t) : bool :=
  if CursorAgent.isRunning a then
    match CursorAgent.process a with
    | Some p => match CursorAgent.stdin p with Some _ => true | None => false end
    | None => false
    end
  else true.

(** What happens to a [CursorAgent]: the calls of its methods, and the
    events of a process it has started (output, exit, error). *)
Inductive agent_event :=
| do_start (child : CursorAgent.ChildProcess)
| do_send (message : CursorAgent.CursorAgentMessage)
| do_stop (exit_delay : option N)
| do_resume (id : str) (exit_delay : option N) (child : CursorAgent.ChildProcess)
| got_data (data : str)
| got_exit
| got_error.

Definition agent_step (JSON_parse : str -> option json) (a : CursorAgent.t) (e : agent_event)
  : CursorAgent.t :=
  match e with
  | do_start child => fst (CursorAgent.start a child)
  | do_send message => fst (CursorAgent.sendMessage a message)
  | do_stop exit_delay => fst (CursorAgent.stop a exit_delay)
  | do_resume id exit_delay child => fst (CursorAgent.resumeSession a id exit_delay child)
  | got_data data => fst (CursorAgent.on_data JSON_parse a data)
  | got_exit => CursorAgent.on_exit a
  | got_error => CursorAgent.on_error a
  end.

Definition agent_run (JSON_parse : str -> option json) (a : CursorAgent.t)
    (es : list agent_event) : CursorAgent.t :=
  fold_left (agent_step JSON_parse) es a.

(** The handle has its three streams. *)
Definition piped (child : CursorAgent.ChildProcess) : bool :=
  match CursorAgent.stdin child with
  | Some _ => CursorAgent.stdout child && CursorAgent.stderr child
  | None => false
  end.

(** What has been written to the input of a handle. *)
Definition or_default_written (p : CursorAgent.ChildProcess) : list str :=
  match CursorAgent.stdin p with Some w => w | None => [] end.

(** The handle after more chunks have been written to its input. *)
Definition written_to (p : CursorAgent.ChildProcess) (chunks : list str)
  : CursorAgent.ChildProcess :=
  {| CursorAgent.stdin := Some (or_default_written p ++ chunks);
     CursorAgent.stdout := CursorAgent.stdout p;
     CursorAgent.stderr := CursorAgent.stderr p;
     CursorAgent.signals := CursorAgent.signals p |}.

(** * Properties *)

(** ** Strings *)

Lemma split_nonempty sep s : split sep s ≠ [].
Proof.
  destruct s as [|c s]; simpl; [done|].
  destruct (N.eqb c sep); [done|]. by destruct (split sep s).
Qed.

(** A text without the separator is its only segment. *)
Lemma split_no_sep sep s : sep ∉ s → split sep s = [s].
Proof.
  induction s as [|c s IH]; intros Hs; simpl; [done|].
  apply not_elem_of_cons in Hs as [Hc Hs].
  destruct (N.eqb_spec c sep) as [->|_]; [done|]. by rewrite IH.
Qed.

(** A segment followed by the separator, then the rest. *)
Lemma split_line sep l rest :
  sep ∉ l → split sep (l ++ sep :: rest) = l :: split sep rest.
Proof.
  induction l as [|c l IH]; intros Hl; simpl.
  - by rewrite N.eqb_refl.
  - apply not_elem_of_cons in Hl as [Hc Hl].
    destruct (N.eqb_spec c sep) as [->|_]; [done|]. by rewrite IH.
Qed.

(** No segment contains the separator. *)
Lemma split_segments sep s : Forall (λ l, sep ∉ l) (split sep s).
Proof.
  induction s as [|c s IH]; simpl.
  - repeat constructor. apply not_elem_of_nil.
  - destruct (N.eqb_spec c sep) as [->|Hc].
    + constructor; [apply not_elem_of_nil | done].
    + destruct (split sep s) as [|l ls].
      * repeat constructor. intros H. apply list_elem_of_singleton in H. congruence.
      * inversion IH; subst. constructor; [|done]. apply not_elem_of_cons. split; [congruence|done].
Qed.

(** Splitting a concatenation: the complete segments of the first part, then
    the segments of what was left of it followed by the second part. *)
Lemma split_app sep x y :
  split sep (x ++ y)
  = removelast (split sep x) ++ split sep (or_empty (last (split sep x)) ++ y).
Proof.
  induction x as [|c x IH]; simpl; [done|].
  pose proof (split_nonempty sep x) as Hne.
  destruct (N.eqb_spec c sep) as [->|Hc].
  - rewrite IH. destruct (split sep x) as [|l ls] eqn:E; [done|]. done.
  - rewrite IH. destruct (split sep x) as [|l ls] eqn:E; [done|].
    destruct ls as [|l' ls]; simpl.
    + destruct (N.eqb_spec c sep); [done|]. done.
    + done.
Qed.

Lemma last_split_no_sep sep s : sep ∉ or_empty (last (split sep s)).
Proof.
  pose proof (split_segments sep s) as H.
  destruct (last (split sep s)) as [l|] eqn:E; simpl; [|apply not_elem_of_nil].
  apply last_Some_elem_of in E. by eapply Forall_forall in H.
Qed.

(** The lines of a text made of terminated lines and a fragment. *)
Lemma split_lines lines frag :
  Forall (λ l, LF ∉ l) lines → LF ∉ frag →
  split LF (flat_map (λ l, l ++ [LF]) lines ++ frag) = lines ++ [frag].
Proof.
  intros Hl Hf. induction Hl as [|l lines Hl _ IH]; simpl.
  - by apply split_no_sep.
  - rewrite <- !app_assoc. simpl. rewrite split_line by done. by rewrite IH.
Qed.

(** ** The line framer and the classifier ([processOutput]) *)

Section OutputProperties.

Import CursorAgent.

Variable JSON_parse : str -> option json.

Lemma set_buffer_same a : set_buffer a (buffer a) = a.
Proof. by destruct a. Qed.

(** [on_data] in terms of the text held after the chunk has been added. *)
Lemma on_data_split a data :
  on_data JSON_parse a data
  = (set_buffer a (or_empty (last (split LF (buffer a ++ data)))),
     flat_map (emit_line JSON_parse) (removelast (split LF (buffer a ++ data)))).
Proof. done. Qed.

(** The buffer never holds a line feed after a chunk has been processed. *)
Lemma on_data_buffer a data : LF ∉ buffer (fst (on_data JSON_parse a data)).
Proof. rewrite on_data_split. simpl. apply last_split_no_sep. Qed.

(** Feeding chunks one by one emits what their concatenation, added to the
    buffer at once, would emit. *)
Lemma feed_concat chunks : ∀ a,
  LF ∉ buffer a →
  feed JSON_parse a chunks
  = (set_buffer a (or_empty (last (split LF (buffer a ++ concat chunks)))),
     flat_map (emit_line JSON_parse) (removelast (split LF (buffer a ++ concat chunks)))).
Proof.
  induction chunks as [|data rest IH]; intros a Ha.
  - simpl. rewrite app_nil_r, split_no_sep by done. simpl. by rewrite set_buffer_same.
  - cbn [feed]. rewrite on_data_split.
    rewrite IH by (simpl; apply last_split_no_sep).
    cbn [buffer set_buffer concat].
    rewrite (app_assoc (buffer a) data (concat rest)).
    rewrite (split_app LF (buffer a ++ data) (concat rest)).
    set (held := or_empty (last (split LF (buffer a ++ data)))).
    pose proof (split_nonempty LF (held ++ concat rest)) as Hne.
    rewrite removelast_app by done.
    rewrite last_app.
    destruct (last (split LF (held ++ concat rest))) as [l|] eqn:E.
    + by rewrite flat_map_app.
    + apply last_None in E. done.
Qed.

Lemma emit_lines lines :
  flat_map (emit_line JSON_parse) lines
  = map (classify JSON_parse) (List.filter (λ l, truthy (trim l)) lines).
Proof.
  induction lines as [|l lines IH]; simpl; [done|].
  unfold emit_line at 1. destruct (truthy (trim l)); simpl; by rewrite IH.
Qed.

(** C3, as amended.  Chunks whose concatenation is N lines, each ended by a
    line feed, followed by a fragment without line feed, fed to an agent
    whose buffer is empty: the messages emitted are those of the lines that
    are not blank, in order, each the classification of the line without
    its terminator (blank lines, those [trim] empties, emit nothing); the
    buffer holds exactly the fragment, which has emitted nothing. *)
Theorem feed_emits_nonblank_lines a chunks lines frag :
  buffer a = [] →
  Forall (λ l, LF ∉ l) lines →
  LF ∉ frag →
  concat chunks = flat_map (λ l, l ++ [LF]) lines ++ frag →
  feed JSON_parse a chunks
  = (set_buffer a frag,
     map (classify JSON_parse) (List.filter (λ l, truthy (trim l)) lines)).
Proof.
  intros Hb Hl Hf Hc.
  rewrite feed_concat by (rewrite Hb; apply not_elem_of_nil).
  rewrite Hb, app_nil_l, Hc, split_lines by done.
  rewrite last_snoc, removelast_last. simpl. by rewrite emit_lines.
Qed.

(** C4.  A complete line that reaches the classifier (a line that is not
    blank, alone in the buffer with its terminator): when [JSON.parse]
    accepts it, the one message emitted is the parsed value as it is; when
    it does not, the one message emitted is the record of type "assistant"
    whose content is the line.  One message either way: no line is dropped
    because it does not parse. *)
Theorem processOutput_classifies a line :
  buffer a = line ++ [LF] →
  LF ∉ line →
  truthy (trim line) = true →
  (∀ parsed, JSON_parse line = Some parsed →
     snd (processOutput JSON_parse a) = [parsed])
  ∧ (JSON_parse line = None →
     snd (processOutput JSON_parse a)
     = [JObject [(lit "type", JString (lit "assistant")); (lit "content", JString line)]])
  ∧ length (snd (processOutput JSON_parse a)) = 1.
Proof.
  intros Hb Hl Ht.
  assert (snd (processOutput JSON_parse a) = [classify JSON_parse line]) as ->.
  { unfold processOutput, pop. rewrite Hb.
    replace (line ++ [LF]) with (flat_map (λ l, l ++ [LF]) [line] ++ [])
      by (simpl; by rewrite !app_nil_r).
    rewrite split_lines; [|by constructor|apply not_elem_of_nil].
    simpl. unfold emit_line. by rewrite Ht. }
  unfold classify. repeat split.
  - by intros parsed ->.
  - by intros ->.
Qed.

End OutputProperties.

(** The claim of C3 as stated fails on a blank line: three terminated lines
    and a fragment, in two chunks, emit two messages, whatever [JSON.parse]
    does. *)
Lemma feed_skips_blank_line :
  let chunks := [lit "a" ++ [LF]; [LF] ++ lit "b" ++ [LF] ++ lit "c"] in
  let lines := [lit "a"; []; lit "b"] in
  (concat chunks = flat_map (λ l, l ++ [LF]) lines ++ lit "c"
   ∧ length lines = 3)
  ∧ ∀ JSON_parse o,
      length (snd (CursorAgent.feed JSON_parse (CursorAgent.new o) chunks)) = 2.
Proof.
  split; [done|]. intros JSON_parse o. reflexivity.
Qed.

Lemma feed_emits_nonblank_lines_witness :
  CursorAgent.feed CursorAgent.parse_null (CursorAgent.new CursorAgent.no_options)
    [lit "nu"; lit "ll" ++ [LF] ++ [32; LF]%N ++ lit "hel"; lit "lo" ++ [LF] ++ lit "par"]
  = (CursorAgent.set_buffer (CursorAgent.new CursorAgent.no_options) (lit "par"),
     [JNull;
      JObject [(lit "type", JString (lit "assistant")); (lit "content", JString (lit "hello"))]]).
Proof.
  apply (feed_emits_nonblank_lines CursorAgent.parse_null
           (CursorAgent.new CursorAgent.no_options)
           [lit "nu"; lit "ll" ++ [LF] ++ [32; LF]%N ++ lit "hel"; lit "lo" ++ [LF] ++ lit "par"]
           [lit "null"; [32%N]; lit "hello"] (lit "par")).
  - reflexivity.
  - compute_done.
  - compute_done.
  - reflexivity.
Defined.

Lemma processOutput_classifies_witness :
  let a := CursorAgent.set_buffer CursorAgent.started (lit "null" ++ [LF]) in
  (∀ parsed, CursorAgent.parse_null (lit "null") = Some parsed →
     snd (CursorAgent.processOutput CursorAgent.parse_null a) = [parsed])
  ∧ (CursorAgent.parse_null (lit "null") = None →
     snd (CursorAgent.processOutput CursorAgent.parse_null a)
     = [JObject [(lit "type", JString (lit "assistant"));
                 (lit "content", JString (lit "null"))]])
  ∧ length (snd (CursorAgent.processOutput CursorAgent.parse_null a)) = 1.
Proof.
  intros a.
  apply (processOutput_classifies CursorAgent.parse_null a (lit "null")).
  - reflexivity.
  - compute_done.
  - reflexivity.
Defined.

(** ** Stopping the subprocess ([stop]) *)

Section StopProperties.

Import CursorAgent.

(** C5, as amended.  [stop] on an agent that is not running (or holds no
    process) returns at once, changes nothing and sends nothing; so does a
    second [stop] after a first.  On a running agent it sends SIGTERM and
    its promise settles within the 5000 milliseconds of the timer: when the
    exit event comes first, on that event, with SIGTERM the only signal
    sent; otherwise when the timer fires, right after SIGKILL has been sent
    and without waiting for the exit event.  Afterwards the agent is not
    running and holds no process. *)
Theorem stop_settles a exit_delay :
  let a' := fst (stop a exit_delay) in
  let r := snd (stop a exit_delay) in
  (resolved_after r ≤ grace_ms)%N
  ∧ grace_ms = 5000%N
  ∧ (isAlive a = false → a' = a ∧ r = not_running)
  ∧ (isAlive a = true →
       isRunning a' = false ∧ process a' = None
       ∧ ((∃ d, exit_delay = Some d ∧ (d < grace_ms)%N
             ∧ sent a r = [SIGTERM] ∧ resolved_after r = d
             ∧ exited_when_resolved r = true)
          ∨ ((exit_delay = None ∨ ∃ d, exit_delay = Some d ∧ (grace_ms ≤ d)%N)
             ∧ sent a r = [SIGTERM; SIGKILL] ∧ resolved_after r = grace_ms
             ∧ exited_when_resolved r = false)))
  ∧ (∀ later, stop a' later = (a', not_running)).
Proof.
  assert (Hidle : ∀ b later, isAlive b = false → stop b later = (b, not_running)).
  { intros b later. unfold isAlive, stop.
    by destruct (isRunning b), (process b). }
  unfold isAlive, stop.
  destruct (isRunning a) eqn:Hr, (process a) as [p|] eqn:Hp; simpl;
    try (split; [done|split; [done|split; [done|split; [done|]]]];
         intros later; apply Hidle; unfold isAlive; by rewrite Hr, ?Hp).
  destruct exit_delay as [d|]; [destruct (N.ltb_spec d grace_ms) as [Hd|Hd]|]; simpl;
    (split; [done || lia|split; [done|split; [done|split; [intros _|by intros later]]]]);
    (split; [done|split; [done|]]).
  - left. exists d. split; [done|split; [done|split; [|done]]].
    rewrite Hp. apply drop_app_length.
  - right. split; [right; eauto|split; [|done]].
    rewrite Hp, <- app_assoc. apply drop_app_length.
  - right. split; [by left|split; [|done]].
    rewrite Hp, <- app_assoc. apply drop_app_length.
Qed.

End StopProperties.

(** The claim of C5 as stated fails where the subprocess does not exit on
    SIGTERM: the promise of [stop] settles when the timer fires, after
    SIGKILL has been sent, and not on the exit of the subprocess. *)
Lemma stop_resolves_before_exit :
  CursorAgent.isAlive CursorAgent.started = true
  ∧ snd (CursorAgent.stop CursorAgent.started None)
    = CursorAgent.timer
        (CursorAgent.kill (CursorAgent.kill CursorAgent.piped_child CursorAgent.SIGTERM)
           CursorAgent.SIGKILL)
  ∧ CursorAgent.exited_when_resolved (snd (CursorAgent.stop CursorAgent.started None)) = false.
Proof. done. Qed.

Lemma stop_settles_witness :
  let a := CursorAgent.started in
  CursorAgent.isRunning (fst (CursorAgent.stop a (Some 120%N))) = false
  ∧ CursorAgent.sent a (snd (CursorAgent.stop a (Some 120%N))) = [CursorAgent.SIGTERM]
  ∧ CursorAgent.stop (fst (CursorAgent.stop a (Some 120%N))) None
    = (fst (CursorAgent.stop a (Some 120%N)), CursorAgent.not_running).
Proof.
  intros a.
  destruct (stop_settles a (Some 120%N)) as (_ & _ & _ & Hrun & Hagain).
  destruct (Hrun eq_refl) as (Hr & _ & _).
  split; [exact Hr|split; [reflexivity|exact (Hagain None)]].
Defined.

(** ** The tool mapper *)

Section ToolProperties.

Import Tools.

Lemma startsWith_prefix p s : startsWith p s = true ↔ ∃ rest, s = p ++ rest.
Proof.
  revert s. induction p as [|a p IH]; intros s; simpl.
  - split; [eauto|done].
  - destruct s as [|b s].
    + split; [done|]. by intros [rest ?].
    + rewrite andb_true_iff, N.eqb_eq, IH. split.
      * intros [-> [rest ->]]. eauto.
      * intros [rest [= -> ->]]. eauto.
Qed.

(** [indexOf] finds an occurrence, and the first one. *)
Lemma indexOf_first p s i :
  indexOf p s = Some i →
  startsWith p (drop i s) = true ∧ ∀ j, j < i → startsWith p (drop j s) = false.
Proof.
  revert i. induction s as [|c s IH]; intros i; simpl.
  - destruct (startsWith p []) eqn:E; [|done].
    intros [= <-]. split; [done|lia].
  - destruct (startsWith p (c :: s)) eqn:E.
    + intros [= <-]. split; [done|lia].
    + destruct (indexOf p s) as [i'|] eqn:Ei; [|done].
      intros [= <-]. destruct (IH i' eq_refl) as [Hat Hbefore].
      split; [done|]. intros [|j] Hj; [done|]. apply Hbefore. lia.
Qed.

(** [indexOf] gives nothing only when the text occurs nowhere. *)
Lemma indexOf_none p s j : indexOf p s = None → startsWith p (drop j s) = false.
Proof.
  revert j. induction s as [|c s IH]; intros j; simpl.
  - destruct (startsWith p []) eqn:E; [done|]. intros _. by destruct j.
  - destruct (startsWith p (c :: s)) eqn:E; [done|].
    destruct (indexOf p s) eqn:Ei; [done|]. intros _.
    destruct j as [|j]; [done|]. by apply IH.
Qed.

(** [replaceFirst] rewrites the occurrence [indexOf] finds. *)
Lemma replaceFirst_at p r s i :
  indexOf p s = Some i →
  replaceFirst p r s = take i s ++ r ++ drop (i + length p) s.
Proof.
  revert i. induction s as [|c s IH]; intros i; simpl.
  - destruct (startsWith p []) eqn:E; [|done]. by intros [= <-].
  - destruct (startsWith p (c :: s)) eqn:E.
    + by intros [= <-].
    + destruct (indexOf p s) as [i'|] eqn:Ei; [|done].
      intros [= <-]. simpl. by rewrite (IH i' eq_refl).
Qed.

(** The final text of [applyEdits]: the operations folded from the left. *)
Lemma applyEdits_text path es : ∀ s,
  fst (applyEdits path s es) = fold_left applyEdit es s.
Proof.
  induction es as [|e es IH]; intros s; simpl; [done|].
  specialize (IH (applyEdit s e)).
  by destruct (applyEdits path (applyEdit s e) es).
Qed.

(** The position [indexOf] gives is the only one that is a first
    occurrence. *)
Lemma indexOf_complete p s : ∀ i,
  startsWith p (drop i s) = true →
  (∀ j, j < i → startsWith p (drop j s) = false) →
  indexOf p s = Some i.
Proof.
  induction s as [|c s IH]; intros i Hat Hbefore.
  - simpl. destruct i as [|i].
    + simpl in Hat. by rewrite Hat.
    + specialize (Hbefore 0 ltac:(lia)). simpl in *. congruence.
  - cbn [indexOf]. destruct i as [|i].
    + simpl in Hat. by rewrite Hat.
    + pose proof (Hbefore 0 ltac:(lia)) as H0. simpl in H0. rewrite H0.
      rewrite (IH i); [done|done|].
      intros j Hj. apply (Hbefore (S j)). lia.
Qed.

(** The locations of [applyEdits]: one per operation, on the path, with the
    line of the first occurrence of the search text in the text the
    operation is applied to. *)
Lemma applyEdits_locations path es : ∀ s,
  length (snd (applyEdits path s es)) = length es
  ∧ ∀ k e, es !! k = Some e →
      snd (applyEdits path s es) !! k = Some (editLocation path (textBefore k es s) e).
Proof.
  induction es as [|e es IH]; intros s; simpl.
  - split; [done|]. by intros k e.
  - destruct (IH (applyEdit s e)) as [Hlen Hat].
    destruct (applyEdits path (applyEdit s e) es) as [final locs]. simpl in *.
    split; [by rewrite Hlen|].
    intros [|k] e' Hk; simpl in *.
    + by injection Hk as <-.
    + apply (Hat k e' Hk).
Qed.

(** C6, as amended.  For a read invocation on a path: without offset and
    limit the title has no range suffix, and is "Read File" for the Read
    tool and "Read " followed by the path for the mcp__acp__read tool; the
    title of any invocation is that title followed by the range suffix,
    which is " (1 - 100)" for limit 100 alone, " (51 - 150)" for offset 50
    and limit 100 (offset+1 to offset+limit in general), and
    " (from line 201)" for offset 200 alone; the one location names the path
    and carries the offset as given, 0 when there is none. *)
Theorem read_title_and_location tool path off lim :
  let input := {| read_path := path; offset := off; limit := lim |} in
  let plain := {| read_path := path; offset := None; limit := None |} in
  title (readToolInfo Read plain) = lit "Read File"
  ∧ title (readToolInfo mcp__acp__read plain) = lit "Read " ++ path
  ∧ title (readToolInfo tool input) = title (readToolInfo tool plain) ++ rangeSuffix off lim
  ∧ (rangeSuffix None None = []
     ∧ rangeSuffix None (Some 100%N) = lit " (1 - 100)"
     ∧ rangeSuffix (Some 50%N) (Some 100%N) = lit " (51 - 150)"
     ∧ rangeSuffix (Some 200%N) None = lit " (from line 201)")
  ∧ (∀ o l, rangeSuffix (Some o) (Some l)
            = lit " (" ++ decimal (o + 1) ++ lit " - " ++ decimal (o + l) ++ lit ")")
  ∧ locations (readToolInfo tool input)
    = Some [ {| loc_path := path; loc_line := Some (default 0%N off) |} ].
Proof.
  intros input plain. unfold readToolInfo, input, plain.
  cbn [title locations read_path offset limit].
  split; [reflexivity|]. split; [by rewrite app_nil_r|]. split.
  { cbn [rangeSuffix]. by rewrite app_nil_r, <- !app_assoc. }
  split; [by repeat split|]. split; [done|]. by destruct off.
Qed.

(** The claim of C6 as stated fails on the input of the test "should handle
    mcp__acp__read tool calls": a path, no offset, no limit, and the title is
    not "Read File". *)
Lemma read_title_names_path :
  let input := {| read_path := lit "/Users/test/project/data.json";
                  offset := None; limit := None |} in
  title (readToolInfo mcp__acp__read input) = lit "Read /Users/test/project/data.json"
  ∧ bool_decide (title (readToolInfo mcp__acp__read input) = lit "Read File") = false.
Proof. split; reflexivity. Qed.

(** The five read tests of [tests/acp-agent.test.ts]. *)
Example test_Read :
  readToolInfo Read {| read_path := lit "/Users/test/project/readme.md";
                       offset := None; limit := None |}
  = {| kind := read; title := lit "Read File"; content := [];
       locations := Some [ {| loc_path := lit "/Users/test/project/readme.md";
                              loc_line := Some 0%N |} ] |}.
Proof. reflexivity. Qed.

Example test_mcp_read :
  readToolInfo mcp__acp__read {| read_path := lit "/Users/test/project/data.json";
                                 offset := None; limit := None |}
  = {| kind := read; title := lit "Read /Users/test/project/data.json"; content := [];
       locations := Some [ {| loc_path := lit "/Users/test/project/data.json";
                              loc_line := Some 0%N |} ] |}.
Proof. reflexivity. Qed.

Example test_mcp_read_limit :
  readToolInfo mcp__acp__read {| read_path := lit "/Users/test/project/large.txt";
                                 offset := None; limit := Some 100%N |}
  = {| kind := read; title := lit "Read /Users/test/project/large.txt (1 - 100)";
       content := [];
       locations := Some [ {| loc_path := lit "/Users/test/project/large.txt";
                              loc_line := Some 0%N |} ] |}.
Proof. reflexivity. Qed.

Example test_mcp_read_offset_limit :
  readToolInfo mcp__acp__read {| read_path := lit "/Users/test/project/large.txt";
                                 offset := Some 50%N; limit := Some 100%N |}
  = {| kind := read; title := lit "Read /Users/test/project/large.txt (51 - 150)";
       content := [];
       locations := Some [ {| loc_path := lit "/Users/test/project/large.txt";
                              loc_line := Some 50%N |} ] |}.
Proof. reflexivity. Qed.

Example test_mcp_read_offset :
  readToolInfo mcp__acp__read {| read_path := lit "/Users/test/project/large.txt";
                                 offset := Some 200%N; limit := None |}
  = {| kind := read; title := lit "Read /Users/test/project/large.txt (from line 201)";
       content := [];
       locations := Some [ {| loc_path := lit "/Users/test/project/large.txt";
                              loc_line := Some 200%N |} ] |}.
Proof. reflexivity. Qed.

(** C7.  A tool result reconciled with its invocation: without the error
    flag the update is empty; with it, the content of the update is the
    text of the result, block by block, and nothing else.  The invocation
    does not matter. *)
Theorem toolUpdate_by_error_flag toolResult toolUse :
  (is_error toolResult = false →
     toolUpdateFromToolResult toolResult toolUse = {| update_content := None |})
  ∧ (is_error toolResult = true →
     toolUpdateFromToolResult toolResult toolUse
     = {| update_content :=
            Some (map content_text (resultTexts (result_content toolResult))) |}).
Proof. unfold toolUpdateFromToolResult. split; by intros ->. Qed.

(** The two tests of [toolUpdateFromToolResult]. *)
Example test_edit_success :
  toolUpdateFromToolResult
    {| result_content := [result_text (lit "not valid json")];
       tool_use_id := lit "test"; is_error := false |}
    test_edit_toolUse
  = {| update_content := None |}.
Proof. reflexivity. Qed.

Example test_edit_failure :
  toolUpdateFromToolResult
    {| result_content := [result_text (lit "Failed to find `old_string`")];
       tool_use_id := lit "test"; is_error := true |}
    test_edit_toolUse
  = {| update_content := Some [content_text (lit "Failed to find `old_string`")] |}.
Proof. reflexivity. Qed.

(** C8.  A multi-edit on a path whose text is cached: the content is one
    diff from the cached text to the text obtained by applying the
    operations in order; there is one location per operation, on the path,
    whose line is the zero-indexed line at which the first occurrence of the
    search text of the operation begins, in the text left by the operations
    before it.  On the input of the test the final text has version 2 and
    enabled true, and the two locations are lines 1 and 3. *)
Theorem multi_edit_sequential :
  (∀ input cache original,
     cache !! file_path input = Some original →
     let info := multiEditToolInfo input cache in
     content info
     = [diff (file_path input) (Some original) (fold_left applyEdit (edits input) original)]
     ∧ ∃ locs,
         locations info = Some locs
         ∧ length locs = length (edits input)
         ∧ ∀ k e, edits input !! k = Some e →
             ∃ loc,
               locs !! k = Some loc
               ∧ loc_path loc = file_path input
               ∧ ∀ i,
                   startsWith (old_string e) (drop i (textBefore k (edits input) original))
                   = true →
                   (∀ j, j < i →
                      startsWith (old_string e) (drop j (textBefore k (edits input) original))
                      = false) →
                   loc_line loc = Some (lineAt (textBefore k (edits input) original) i))
  ∧ multiEditToolInfo test_multi_edit test_fileCache
    = {| kind := edit;
         title := lit "Edit /Users/test/project/config.json";
         content := [diff (lit "/Users/test/project/config.json")
                       (Some (config_json (lit "1") (lit "false")))
                       (config_json (lit "2") (lit "true"))];
         locations := Some [ {| loc_path := lit "/Users/test/project/config.json";
                                loc_line := Some 1%N |};
                             {| loc_path := lit "/Users/test/project/config.json";
                                loc_line := Some 3%N |} ] |}.
Proof.
  split; [|by vm_compute].
  intros input cache original Hc. unfold multiEditToolInfo. rewrite Hc. simpl.
  pose proof (applyEdits_text (file_path input) (edits input) original) as Htext.
  destruct (applyEdits_locations (file_path input) (edits input) original) as [Hlen Hat].
  destruct (applyEdits (file_path input) original (edits input)) as [final locs].
  simpl in *. subst final. split; [done|].
  exists locs. split; [done|]. split; [done|].
  intros k e Hk. eexists. split; [by apply Hat|]. split; [done|].
  intros i Hfound Hfirst. simpl. by rewrite (indexOf_complete _ _ i Hfound Hfirst).
Qed.

End ToolProperties.

Lemma toolUpdate_by_error_flag_witness :
  let failed := {| Tools.result_content := [Tools.result_text (lit "Failed to find `old_string`")];
                   Tools.tool_use_id := lit "test"; Tools.is_error := true |} in
  Tools.toolUpdateFromToolResult failed Tools.test_edit_toolUse
  = {| Tools.update_content := Some [Tools.content_text (lit "Failed to find `old_string`")] |}.
Proof.
  intros failed.
  exact (proj2 (toolUpdate_by_error_flag failed Tools.test_edit_toolUse) eq_refl).
Defined.

Lemma multi_edit_sequential_witness :
  Tools.content (Tools.multiEditToolInfo Tools.test_multi_edit Tools.test_fileCache)
  = [Tools.diff (lit "/Users/test/project/config.json")
       (Some (Tools.config_json (lit "1") (lit "false")))
       (fold_left Tools.applyEdit (Tools.edits Tools.test_multi_edit)
          (Tools.config_json (lit "1") (lit "false")))].
Proof.
  refine (proj1 (proj1 multi_edit_sequential Tools.test_multi_edit Tools.test_fileCache
                   (Tools.config_json (lit "1") (lit "false")) _)).
  by vm_compute.
Defined.

(** ** The session registry and the forwarding of messages *)

Section AcpProperties.

Import CursorAgent Acp.

Variable JSON_parse : str -> option json.

(** What [handleCursorAgentMessage] does to the state: at most one
    notification more, for the session named, a chunk with the content of
    the message. *)
Lemma handle_effect a id m :
  ∃ extra,
    fst (handleCursorAgentMessage a id m)
    = {| sessions := sessions a; builtin_cancelled := builtin_cancelled a;
         client_updates := client_updates a ++ extra |}
    ∧ (extra = []
       ∨ ∃ value, message_content m = Some value
                  ∧ extra = [ {| notification_sessionId := id;
                                 update := agent_message_chunk value |} ]).
Proof.
  assert (Hsame : a = {| sessions := sessions a; builtin_cancelled := builtin_cancelled a;
                         client_updates := client_updates a ++ [] |}).
  { rewrite app_nil_r. by destruct a. }
  unfold handleCursorAgentMessage.
  destruct (lookup_session a id) as [s| |b|];
    [destruct (cancelled s)|destruct (read_builtin_cancelled a id)| |];
    try (exists []; split; [exact Hsame|by left]);
    (destruct (message_content m) as [value|] eqn:E;
     [ eexists; split; [reflexivity|right; eauto]
     | exists []; split; [exact Hsame|by left] ]).
Qed.

Lemma handle_sessions a id m :
  sessions (fst (handleCursorAgentMessage a id m)) = sessions a.
Proof. destruct (handle_effect a id m) as (extra & -> & _). done. Qed.

(** A cancelled session forwards nothing. *)
Lemma handle_cancelled a id m s :
  sessions a !! id = Some s → cancelled s = true →
  handleCursorAgentMessage a id m = (a, Return tt).
Proof.
  intros Hs Hc. unfold handleCursorAgentMessage, lookup_session. by rewrite Hs, Hc.
Qed.

(** A session that is not cancelled forwards the content of a message. *)
Lemma handle_active a id m s value :
  sessions a !! id = Some s → cancelled s = false → message_content m = Some value →
  handleCursorAgentMessage a id m
  = (sessionUpdate a {| notification_sessionId := id; update := agent_message_chunk value |},
     Return tt).
Proof.
  intros Hs Hc Hm. unfold handleCursorAgentMessage, lookup_session. by rewrite Hs, Hc, Hm.
Qed.

Lemma updates_for_app id a extra :
  updates_for id {| sessions := sessions a; builtin_cancelled := builtin_cancelled a;
                    client_updates := client_updates a ++ extra |}
  = updates_for id a
    ++ List.filter (λ n, bool_decide (notification_sessionId n = id)) extra.
Proof. unfold updates_for. simpl. apply List.filter_app. Qed.

(** Messages of one session leave the notifications of another alone. *)
Lemma handle_other a id id' m :
  id' ≠ id →
  updates_for id (fst (handleCursorAgentMessage a id' m)) = updates_for id a.
Proof.
  intros Hne. destruct (handle_effect a id' m) as (extra & -> & [->|(value & _ & ->)]);
    rewrite updates_for_app; simpl; [by rewrite app_nil_r|].
  rewrite bool_decide_eq_false_2 by done. by rewrite app_nil_r.
Qed.

Lemma forward_all_sessions ms : ∀ a id,
  sessions (forward_all a id ms) = sessions a.
Proof.
  induction ms as [|m ms IH]; intros a id; simpl; [done|].
  by rewrite IH, handle_sessions.
Qed.

Lemma forward_all_other ms : ∀ a id id',
  id' ≠ id → updates_for id (forward_all a id' ms) = updates_for id a.
Proof.
  induction ms as [|m ms IH]; intros a id id' Hne; simpl; [done|].
  by rewrite IH, handle_other.
Qed.

Lemma forward_all_cancelled ms : ∀ a id s,
  sessions a !! id = Some s → cancelled s = true → forward_all a id ms = a.
Proof.
  induction ms as [|m ms IH]; intros a id s Hs Hc; simpl; [done|].
  rewrite (handle_cancelled a id m s) by done. simpl. by eapply IH.
Qed.

(** The calls of the client send nothing to the client. *)
Lemma prompt_updates a params :
  client_updates (fst (prompt a params)) = client_updates a.
Proof.
  unfold prompt, prompt_try.
  destruct (lookup_session a (Acp.sessionId params)) as [s| |[]|]; try done.
  by destruct (sendMessage _ _) as [agent' [[]|e]].
Qed.

Lemma cancel_updates a id : client_updates (fst (cancel a id)) = client_updates a.
Proof. unfold cancel. by destruct (lookup_session a id) as [s| |[]|]. Qed.

Lemma newSession_updates a id cwd child :
  client_updates (fst (newSession a id cwd child)) = client_updates a.
Proof. unfold newSession. by destruct (start _ _) as [agent' [[]|e]]. Qed.

(** A prompt touches no session but the one it names. *)
Lemma prompt_other a params id :
  Acp.sessionId params ≠ id →
  sessions (fst (prompt a params)) !! id = sessions a !! id.
Proof.
  intros Hne. unfold prompt, prompt_try.
  destruct (lookup_session a (Acp.sessionId params)) as [s| |[]|]; try done.
  destruct (sendMessage _ _) as [agent' [[]|e]]; simpl;
    by rewrite ?lookup_insert_ne.
Qed.

(** One event on a session that is cancelled, the event not handing it a
    cleared flag: the session stays cancelled and gets no notification. *)
Lemma step_keeps_cancelled a id s e :
  sessions a !! id = Some s → cancelled s = true → resets id e = false →
  (∃ s', sessions (step JSON_parse a e) !! id = Some s' ∧ cancelled s' = true)
  ∧ updates_for id (step JSON_parse a e) = updates_for id a.
Proof.
  intros Hs Hc Hr.
  destruct e as [id' cwd child|params|id'|id' m|id' data|id'|id']; simpl in *.
  - apply bool_decide_eq_false in Hr.
    unfold updates_for. rewrite newSession_updates. split; [|done].
    unfold newSession. destruct (start _ _) as [agent' [[]|err]]; simpl; [|eauto].
    rewrite lookup_insert_ne by done. eauto.
  - apply bool_decide_eq_false in Hr.
    unfold updates_for. rewrite prompt_updates. split; [|done].
    rewrite prompt_other by done. eauto.
  - unfold updates_for. rewrite cancel_updates. split; [|done].
    unfold cancel, lookup_session.
    destruct (sessions a !! id') as [s'|] eqn:Es'.
    + simpl. destruct (decide (id' = id)) as [->|Hne].
      * rewrite lookup_insert_eq. eauto.
      * rewrite lookup_insert_ne by done. eauto.
    + destruct (bool_decide _); simpl; [eauto|].
      destruct (bool_decide _); simpl; [|eauto].
      destruct (builtin_cancelled a !! lit "__proto__") as [[]|]; simpl; eauto.
  - rewrite handle_sessions. split; [eauto|].
    destruct (decide (id' = id)) as [->|Hne].
    + by rewrite (handle_cancelled a id m s).
    + by apply handle_other.
  - destruct (sessions a !! id') as [s'|] eqn:Es'; [|eauto].
    destruct (on_data JSON_parse (cursorAgent s') data) as [agent' ms].
    rewrite forward_all_sessions. simpl.
    destruct (decide (id' = id)) as [->|Hne].
    + assert (s' = s) as -> by congruence.
      rewrite lookup_insert_eq. split; [eauto|].
      erewrite forward_all_cancelled; [done|apply lookup_insert_eq|done].
    + rewrite lookup_insert_ne by done. split; [eauto|].
      by rewrite forward_all_other.
  - destruct (sessions a !! id') as [s'|] eqn:Es'; [|eauto].
    split; [|done]. simpl. destruct (decide (id' = id)) as [->|Hne].
    + assert (s' = s) as -> by congruence. rewrite lookup_insert_eq. eauto.
    + rewrite lookup_insert_ne by done. eauto.
  - destruct (sessions a !! id') as [s'|] eqn:Es'; [|eauto].
    split; [|done]. simpl. destruct (decide (id' = id)) as [->|Hne].
    + assert (s' = s) as -> by congruence. rewrite lookup_insert_eq. eauto.
    + rewrite lookup_insert_ne by done. eauto.
Qed.

(** C2, as amended.  After [cancel] on a session of the registry, and for
    as long as no prompt is made on that session (and no new session is
    stored under its id), the flag of the session stays set and no
    notification is sent for it, whatever the calls and however many the
    messages and chunks of its subprocess. *)
Theorem cancel_holds_until_next_prompt a id s es :
  sessions a !! id = Some s →
  Forall (λ e, resets id e = false) es →
  let a' := run JSON_parse (fst (cancel a id)) es in
  (∃ s', sessions a' !! id = Some s' ∧ cancelled s' = true)
  ∧ updates_for id a' = updates_for id a.
Proof.
  intros Hs Hes. simpl.
  assert (Hstart : (∃ s', sessions (fst (cancel a id)) !! id = Some s' ∧ cancelled s' = true)
                   ∧ updates_for id (fst (cancel a id)) = updates_for id a).
  { unfold cancel, lookup_session. rewrite Hs. simpl. rewrite lookup_insert_eq.
    split; [eauto|done]. }
  revert Hstart. generalize (fst (cancel a id)). unfold run.
  induction Hes as [|e es He _ IH]; intros b Hb; simpl; [done|].
  destruct Hb as [(s' & Hs' & Hc') Hu].
  destruct (step_keeps_cancelled b id s' e Hs' Hc' He) as [Hkeep Hsame].
  apply IH. split; [done|congruence].
Qed.

(** The handler sends chunks of agent text only. *)
Lemma handle_chunks a id m :
  Forall (λ n, is_message_chunk (update n) = true) (client_updates a) →
  Forall (λ n, is_message_chunk (update n) = true)
    (client_updates (fst (handleCursorAgentMessage a id m))).
Proof.
  intros Ha.
  destruct (handle_effect a id m) as (extra & -> & [->|(value & _ & ->)]); simpl.
  - by rewrite app_nil_r.
  - apply Forall_app. split; [done|]. by repeat constructor.
Qed.

Lemma forward_all_chunks ms : ∀ a id,
  Forall (λ n, is_message_chunk (update n) = true) (client_updates a) →
  Forall (λ n, is_message_chunk (update n) = true) (client_updates (forward_all a id ms)).
Proof.
  induction ms as [|m ms IH]; intros a id Ha; simpl; [done|].
  apply IH. by apply handle_chunks.
Qed.

(** Every event leaves the notifications sent so far chunks of agent text,
    when they were. *)
Lemma step_chunks a e :
  Forall (λ n, is_message_chunk (update n) = true) (client_updates a) →
  Forall (λ n, is_message_chunk (update n) = true) (client_updates (step JSON_parse a e)).
Proof.
  intros Ha. destruct e as [id' cwd child|params|id'|id' m|id' data|id'|id']; simpl.
  - by rewrite newSession_updates.
  - by rewrite prompt_updates.
  - by rewrite cancel_updates.
  - by apply handle_chunks.
  - destruct (sessions a !! id') as [s'|]; [|done].
    destruct (on_data JSON_parse (cursorAgent s') data) as [agent' ms].
    by apply forward_all_chunks.
  - by destruct (sessions a !! id').
  - by destruct (sessions a !! id').
Qed.

(** C1, as amended.  Every notification the agent sends is a chunk of agent
    text, and never the report or the update of a tool call: whatever the
    events since the agent was created.  A record with the shape of a tool
    invocation, arriving on a session that is not cancelled, is forwarded
    like any other message, as one chunk whose text is the [content]
    property of the record. *)
Theorem forwards_message_chunks_only :
  (∀ es, Forall (λ n, is_message_chunk (update n) = true)
           (client_updates (run JSON_parse Acp.new es)))
  ∧ (∀ a id s m,
       sessions a !! id = Some s → cancelled s = false → tool_shaped m = true →
       ∃ fields,
         m = JObject fields
         ∧ handleCursorAgentMessage a id m
           = (sessionUpdate a
                {| notification_sessionId := id;
                   update := agent_message_chunk (field (lit "content") fields) |},
              Return tt)).
Proof.
  split.
  - intros es. unfold run.
    assert (H0 : Forall (λ n, is_message_chunk (update n) = true) (client_updates Acp.new))
      by constructor.
    revert H0. generalize Acp.new.
    induction es as [|e es IH]; intros b Hb; simpl; [done|].
    apply IH. by apply step_chunks.
  - intros a id s m Hs Hc Hm. destruct m as [| | | | |fields]; try done.
    exists fields. split; [done|]. by apply (handle_active a id _ s).
Qed.

(** [sendMessage] fails exactly when the agent is not running, holds no
    process, or the process has no standard input. *)
Lemma sendMessage_throws a message :
  (∃ e, snd (sendMessage a message) = Throw e)
  ↔ isRunning a = false ∨ process a = None ∨ ∃ p, process a = Some p ∧ stdin p = None.
Proof.
  unfold sendMessage.
  destruct (isRunning a), (process a) as [p|]; simpl;
    try destruct (stdin p) eqn:E; simpl; split; intros H;
    try (by eauto); try (by destruct H as [e ?]);
    try (destruct H as [?|[?|(p' & [= <-] & H)]]; congruence).
  all: right; right; eauto.
Qed.

(** What the guard [if (!session)] lets through: an id fails it exactly
    when it is not a stored session, is not a name inherited from
    [Object.prototype], and is not [cancelled] at a time when
    [Object.prototype.cancelled] holds [true]. *)
Lemma found_spec a id :
  found (lookup_session a id) = false
  ↔ sessions a !! id = None
    ∧ (id ∉ Object_prototype)
    ∧ ¬ (id = lit "cancelled" ∧ builtin_cancelled a !! lit "__proto__" = Some true).
Proof.
  unfold lookup_session.
  destruct (sessions a !! id) as [s|]; simpl; [by split; [|intros [? _]]|].
  destruct (bool_decide (id ∈ Object_prototype)) eqn:Hp; simpl.
  - apply bool_decide_eq_true in Hp. split; [done|]. by intros (_ & ? & _).
  - apply bool_decide_eq_false in Hp.
    destruct (bool_decide (id = lit "cancelled")) eqn:Hc; simpl.
    + apply bool_decide_eq_true in Hc.
      destruct (builtin_cancelled a !! lit "__proto__") as [[]|]; simpl.
      * split; [done|]. intros (_ & _ & H). by destruct H.
      * split; [|done]. intros _. split; [done|]. split; [done|]. by intros [_ ?].
      * split; [|done]. intros _. split; [done|]. split; [done|]. by intros [_ ?].
    + apply bool_decide_eq_false in Hc. split; [|done].
      intros _. split; [done|]. split; [done|]. by intros [? _].
Qed.

(** C9, as amended.  A call of [prompt] or [cancel] whose session id the
    registry object resolves to nothing ([this.sessions[sessionId]] fails the
    guard: the id is not a stored session, is not a name inherited from
    [Object.prototype], and is not [cancelled] while
    [Object.prototype.cancelled] is [true]) raises the error "Session not
    found" and changes nothing; for [prompt] this is an error raised to the
    caller, not a refusal.  A call of [prompt] on a session of the registry
    raises nothing: its outcome is end_turn when the prompt could be written
    to the subprocess, and refusal when [sendMessage] failed. *)
Theorem prompt_failures a params id :
  (sessions a !! Acp.sessionId params = None
   → Acp.sessionId params ∉ Object_prototype
   → ¬ (Acp.sessionId params = lit "cancelled"
        ∧ builtin_cancelled a !! lit "__proto__" = Some true)
   → prompt a params = (a, Throw (Error (lit "Session not found"))))
  ∧ (sessions a !! id = None
     → id ∉ Object_prototype
     → ¬ (id = lit "cancelled" ∧ builtin_cancelled a !! lit "__proto__" = Some true)
     → cancel a id = (a, Throw (Error (lit "Session not found"))))
  ∧ (∀ s, sessions a !! Acp.sessionId params = Some s →
       snd (prompt a params)
       = Return {| stopReason :=
                     match snd (sendMessage (cursorAgent s) (promptToCursorAgent params)) with
                     | Return _ => end_turn
                     | Throw _ => refusal
                     end |}).
Proof.
  split; [|split].
  - intros H1 H2 H3.
    assert (found (lookup_session a (Acp.sessionId params)) = false) as Hf
      by by apply found_spec.
    unfold prompt. by destruct (lookup_session a (Acp.sessionId params)) as [s| |[]|].
  - intros H1 H2 H3.
    assert (found (lookup_session a id) = false) as Hf by by apply found_spec.
    unfold cancel. by destruct (lookup_session a id) as [s| |[]|].
  - intros s Hs. unfold prompt, prompt_try, lookup_session. rewrite Hs. simpl.
    by destruct (sendMessage _ _) as [agent' [[]|e]].
Qed.

(** C10.  A call of [prompt] on a session of the registry clears the flag
    of the session before anything is sent: the rest of the call, the
    translation of the prompt and its writing to the subprocess, runs on the
    state in which the flag is already cleared.  The flag is cleared after
    the call whether the prompt was written or not, and a message that
    arrives then is forwarded. *)
Theorem prompt_clears_cancelled a params s :
  sessions a !! Acp.sessionId params = Some s →
  let id := Acp.sessionId params in
  let cleared := set_cancelled s false in
  prompt a params = prompt_try (set_session a id cleared) params cleared
  ∧ (∃ s', sessions (fst (prompt a params)) !! id = Some s' ∧ cancelled s' = false
           ∧ ∀ agent', sendMessage (cursorAgent s) (promptToCursorAgent params)
                       = (agent', Return tt) →
                       cursorAgent s' = agent')
  ∧ (∀ m value, message_content m = Some value →
       client_updates (fst (handleCursorAgentMessage (fst (prompt a params)) id m))
       = client_updates a
         ++ [ {| notification_sessionId := id; update := agent_message_chunk value |} ]).
Proof.
  intros Hs id cleared.
  assert (Hrun : prompt a params = prompt_try (set_session a id cleared) params cleared).
  { unfold prompt, lookup_session. by rewrite Hs. }
  assert (Hafter : ∃ s', sessions (fst (prompt a params)) !! id = Some s' ∧ cancelled s' = false
           ∧ ∀ agent', sendMessage (cursorAgent s) (promptToCursorAgent params)
                       = (agent', Return tt) →
                       cursorAgent s' = agent').
  { rewrite Hrun. unfold prompt_try. simpl.
    destruct (sendMessage _ _) as [agent1 [[]|e]]; simpl; fold id.
    - rewrite lookup_insert_eq. eexists. split; [done|]. split; [done|].
      by intros agent' [= ->].
    - rewrite lookup_insert_eq. eexists. split; [done|]. split; [done|]. done. }
  split; [done|]. split; [done|].
  intros m value Hm. destruct Hafter as (s' & Hs' & Hc' & _).
  rewrite (handle_active _ id m s' value) by done. simpl.
  by rewrite prompt_updates.
Qed.

End AcpProperties.

Lemma one_session_s1 :
  Acp.sessions Acp.one_session !! lit "s1" = Some Acp.session_s1.
Proof. by vm_compute. Qed.

(** The claim of C1 as stated fails on a record with the shape of a tool
    invocation: the session "s1" forwards it as a chunk of agent text, whose
    text is the [content] the record does not have. *)
Lemma tool_use_forwarded_as_chunk :
  Acp.tool_shaped Acp.tool_use_record = true
  ∧ Acp.client_updates
      (fst (Acp.handleCursorAgentMessage Acp.one_session (lit "s1") Acp.tool_use_record))
    = [ {| Acp.notification_sessionId := lit "s1";
           Acp.update := Acp.agent_message_chunk None |} ].
Proof. split; by vm_compute. Qed.

Lemma forwards_message_chunks_only_witness :
  ∃ fields,
    Acp.tool_use_record = JObject fields
    ∧ Acp.handleCursorAgentMessage Acp.one_session (lit "s1") Acp.tool_use_record
      = (Acp.sessionUpdate Acp.one_session
           {| Acp.notification_sessionId := lit "s1";
              Acp.update := Acp.agent_message_chunk (field (lit "content") fields) |},
         Return tt).
Proof.
  apply (proj2 (forwards_message_chunks_only CursorAgent.parse_null)
           Acp.one_session (lit "s1") Acp.session_s1 Acp.tool_use_record).
  - by vm_compute.
  - reflexivity.
  - reflexivity.
Defined.

(** The claim of C2 as stated fails on a later prompt: after [cancel] and
    then [prompt] on the session "s1" its flag is cleared, and the next
    message of the subprocess is forwarded. *)
Lemma prompt_after_cancel_forwards :
  let a1 := fst (Acp.cancel Acp.one_session (lit "s1")) in
  let a2 := fst (Acp.prompt a1 Acp.prompt_s1) in
  let a3 := fst (Acp.handleCursorAgentMessage a2 (lit "s1") Acp.hello_record) in
  (Acp.cancelled <$> Acp.sessions a1 !! lit "s1") = Some true
  ∧ (Acp.cancelled <$> Acp.sessions a2 !! lit "s1") = Some false
  ∧ Acp.updates_for (lit "s1") a1 = []
  ∧ Acp.updates_for (lit "s1") a3
    = [ {| Acp.notification_sessionId := lit "s1";
           Acp.update := Acp.agent_message_chunk (Some (JString (lit "hello"))) |} ].
Proof. repeat split; by vm_compute. Qed.

Lemma cancel_holds_until_next_prompt_witness :
  let es := [ Acp.subprocess_message (lit "s1") Acp.hello_record;
              Acp.call_cancel (lit "s1");
              Acp.subprocess_data (lit "s1") (lit "null" ++ [LF] ++ lit "more");
              Acp.call_prompt {| Acp.sessionId := lit "s2"; Acp.prompt_blocks := [] |};
              Acp.subprocess_message (lit "s1") Acp.tool_use_record ] in
  let a' := Acp.run CursorAgent.parse_null (fst (Acp.cancel Acp.one_session (lit "s1"))) es in
  (∃ s', Acp.sessions a' !! lit "s1" = Some s' ∧ Acp.cancelled s' = true)
  ∧ Acp.updates_for (lit "s1") a' = Acp.updates_for (lit "s1") Acp.one_session.
Proof.
  intros es.
  apply (cancel_holds_until_next_prompt CursorAgent.parse_null
           Acp.one_session (lit "s1") Acp.session_s1 es).
  - by vm_compute.
  - by repeat constructor.
Defined.

(** The claim of C9 as stated fails on an unknown session id: [prompt]
    raises "Session not found" to its caller, and does not return a
    refusal. *)
Lemma prompt_unknown_session_throws :
  snd (Acp.prompt Acp.one_session
         {| Acp.sessionId := lit "s2"; Acp.prompt_blocks := [Acp.text_block (lit "hi")] |})
  = Throw (Error (lit "Session not found")).
Proof. by vm_compute. Qed.

Lemma prompt_failures_witness :
  Acp.cancel Acp.one_session (lit "s2")
  = (Acp.one_session, Throw (Error (lit "Session not found"))).
Proof.
  apply (proj1 (proj2 (prompt_failures Acp.one_session Acp.prompt_s1 (lit "s2")))).
  - by vm_compute.
  - compute_done.
  - intros [H _]. by vm_compute in H.
Defined.

(** A prompt on a session whose subprocess has exited is refused, not
    raised. *)
Example prompt_refused_after_exit :
  let a := Acp.step CursorAgent.parse_null Acp.one_session (Acp.subprocess_exit (lit "s1")) in
  snd (Acp.prompt a Acp.prompt_s1) = Return {| Acp.stopReason := Acp.refusal |}.
Proof. by vm_compute. Qed.

(** A prompt on a running session is written to the subprocess, with a
    line feed. *)
Example prompt_written :
  (Acp.cursorAgent <$> Acp.sessions (fst (Acp.prompt Acp.one_session Acp.prompt_s1)) !! lit "s1")
  = Some (CursorAgent.set_process (Acp.cursorAgent Acp.session_s1)
            (Some {| CursorAgent.stdin := Some [lit "hi" ++ [LF]];
                     CursorAgent.stdout := true; CursorAgent.stderr := true;
                     CursorAgent.signals := [] |}))
  ∧ snd (Acp.prompt Acp.one_session Acp.prompt_s1) = Return {| Acp.stopReason := Acp.end_turn |}.
Proof. split; by vm_compute. Qed.

(** After a [cancel] under the name [__proto__], the name [cancelled] finds
    the boolean left on [Object.prototype]: [prompt] and [cancel] on it
    raise a [TypeError], not "Session not found". *)
Example cancelled_name_raises_type_error :
  let a := fst (Acp.cancel Acp.one_session (lit "__proto__")) in
  snd (Acp.cancel a (lit "cancelled")) = Throw TypeError
  ∧ snd (Acp.prompt a {| Acp.sessionId := lit "cancelled"; Acp.prompt_blocks := [] |})
    = Throw TypeError
  ∧ snd (Acp.cancel Acp.one_session (lit "cancelled")) = Throw (Error (lit "Session not found")).
Proof. repeat split; by vm_compute. Qed.

(** A session id that names a property every object inherits is not
    reported as not found: [cancel] returns, [prompt] is refused. *)
Example inherited_name_not_reported :
  snd (Acp.cancel Acp.one_session (lit "constructor")) = Return tt
  ∧ snd (Acp.prompt Acp.one_session
           {| Acp.sessionId := lit "constructor"; Acp.prompt_blocks := [] |})
    = Return {| Acp.stopReason := Acp.refusal |}.
Proof. split; by vm_compute. Qed.

Lemma prompt_clears_cancelled_witness :
  let a := fst (Acp.cancel Acp.one_session (lit "s1")) in
  ∃ s', Acp.sessions (fst (Acp.prompt a Acp.prompt_s1)) !! lit "s1" = Some s'
        ∧ Acp.cancelled s' = false
        ∧ ∀ agent',
            CursorAgent.sendMessage
              (Acp.cursorAgent (Acp.set_cancelled Acp.session_s1 true))
              (Acp.promptToCursorAgent Acp.prompt_s1)
            = (agent', Return tt) →
            Acp.cursorAgent s' = agent'.
Proof.
  intros a.
  apply (proj1 (proj2 (prompt_clears_cancelled a Acp.prompt_s1
                         (Acp.set_cancelled Acp.session_s1 true) ltac:(by vm_compute)))).
Defined.

(** * Further properties of the code *)

(** ** [CursorAgent]: output *)

Section MoreOutput.

Import CursorAgent.

Variable JSON_parse : str -> option json.

(** The chunks are texts, each as [data.toString()] decodes one [Buffer]
    of the output.  How a text is cut into such chunk texts does not
    matter: two sequences of chunk texts with the same concatenation leave
    the same buffer and emit the same messages.  The decoding itself is
    outside the statement: a [Buffer] that ends inside a multi-byte
    character decodes to other text, so two cuttings of the same bytes need
    not give chunk texts with the same concatenation. *)
Theorem feed_chunking_irrelevant a chunks chunks' :
  LF ∉ buffer a →
  concat chunks = concat chunks' →
  feed JSON_parse a chunks = feed JSON_parse a chunks'.
Proof. intros Ha Hc. rewrite !feed_concat by done. by rewrite Hc. Qed.

(** A chunk without line feed emits nothing: it is added to the buffer,
    which grows without bound as long as no line feed comes. *)
Theorem on_data_without_newline a data :
  LF ∉ buffer a → LF ∉ data →
  on_data JSON_parse a data = (set_buffer a (buffer a ++ data), []).
Proof.
  intros Ha Hd. rewrite on_data_split.
  rewrite split_no_sep; [done|].
  intros H. apply elem_of_app in H. tauto.
Qed.

(** The line feed that ends a line releases what the buffer held: the held
    fragment and the rest of the line are classified as one line, and the
    buffer is left empty. *)
Theorem on_data_completes_line a data :
  LF ∉ buffer a → LF ∉ data →
  on_data JSON_parse a (data ++ [LF])
  = (set_buffer a [], emit_line JSON_parse (buffer a ++ data)).
Proof.
  intros Ha Hd. rewrite on_data_split.
  replace (buffer a ++ data ++ [LF])
    with (flat_map (λ l, l ++ [LF]) [buffer a ++ data] ++ [])
    by (simpl; by rewrite !app_nil_r, <- app_assoc).
  rewrite split_lines; [|constructor; [|done]|apply not_elem_of_nil].
  - simpl. by rewrite app_nil_r.
  - intros H. apply elem_of_app in H. tauto.
Qed.

End MoreOutput.

Lemma feed_chunking_irrelevant_witness :
  CursorAgent.feed CursorAgent.parse_null CursorAgent.started
    [lit "nu"; lit "ll" ++ [LF] ++ lit "x"]
  = CursorAgent.feed CursorAgent.parse_null CursorAgent.started
      [lit "null" ++ [LF]; []; lit "x"].
Proof.
  apply feed_chunking_irrelevant; [compute_done|reflexivity].
Defined.

Lemma on_data_without_newline_witness :
  CursorAgent.on_data CursorAgent.parse_null
    (CursorAgent.set_buffer CursorAgent.started (lit "par")) (lit "tial")
  = (CursorAgent.set_buffer (CursorAgent.set_buffer CursorAgent.started (lit "par"))
       (lit "par" ++ lit "tial"), []).
Proof.
  apply on_data_without_newline; compute_done.
Defined.

Lemma on_data_completes_line_witness :
  CursorAgent.on_data CursorAgent.parse_null
    (CursorAgent.set_buffer CursorAgent.started (lit "nu")) (lit "ll" ++ [LF])
  = (CursorAgent.set_buffer (CursorAgent.set_buffer CursorAgent.started (lit "nu")) [],
     CursorAgent.emit_line CursorAgent.parse_null (lit "nu" ++ lit "ll")).
Proof.
  apply on_data_completes_line; compute_done.
Defined.

(** ** [CursorAgent]: the life of the process *)

Section Lifecycle.

Import CursorAgent.

Variable JSON_parse : str -> option json.

Lemma start_consistent a child : consistent a = true → consistent (fst (start a child)) = true.
Proof.
  unfold consistent, start. destruct (isRunning a) eqn:Hr; simpl; [by rewrite Hr|].
  intros _. destruct (stdin child) eqn:Hs; simpl; [|by rewrite Hr].
  destruct (stdout child && stderr child); simpl; [by rewrite Hs|by rewrite Hr].
Qed.

Lemma stop_consistent a d : consistent a = true → consistent (fst (stop a d)) = true.
Proof.
  unfold stop. destruct (isRunning a) eqn:Hr, (process a) as [p|] eqn:Hp; simpl; try done.
  intros _. by destruct d as [d|]; [destruct (d <? grace_ms)%N|].
Qed.

Lemma sendMessage_consistent a m :
  consistent a = true → consistent (fst (sendMessage a m)) = true.
Proof.
  unfold sendMessage. destruct (isRunning a) eqn:Hr, (process a) as [p|] eqn:Hp; simpl; try done.
  destruct (stdin p) eqn:Hs; simpl; [|done].
  intros _. unfold consistent. simpl. by rewrite Hr.
Qed.

(** One event keeps a running agent on a process with a standard input, and
    the buffer free of line feeds. *)
Lemma agent_step_invariant a e :
  consistent a = true ∧ LF ∉ buffer a →
  consistent (agent_step JSON_parse a e) = true ∧ LF ∉ buffer (agent_step JSON_parse a e).
Proof.
  intros [Hc Hb]. destruct e as [child|m|d|id d child|data| |]; cbn [agent_step].
  - split; [by apply start_consistent|].
    unfold start. destruct (isRunning a); [done|]. simpl.
    by destruct (stdin child); [destruct (stdout child && stderr child)|].
  - split; [by apply sendMessage_consistent|].
    unfold sendMessage. destruct (isRunning a), (process a) as [p|]; try done.
    by destruct (stdin p).
  - split; [by apply stop_consistent|].
    unfold stop. destruct (isRunning a), (process a) as [p|]; try done.
    by destruct d as [d|]; [destruct (d <? grace_ms)%N|].
  - unfold resumeSession.
    assert (Hc1 : consistent (set_sessionId a id) = true) by done.
    assert (Hb1 : LF ∉ buffer (set_sessionId a id)) by done.
    revert Hc1 Hb1. generalize (set_sessionId a id). intros a1 Hc1 Hb1.
    assert (Hb2 : LF ∉ buffer (if isRunning a1 then fst (stop a1 d) else a1)).
    { destruct (isRunning a1) eqn:Hr; [|done]. unfold stop. rewrite Hr.
      destruct (process a1) as [p|]; [|done].
      by destruct d as [d|]; [destruct (d <? grace_ms)%N|]. }
    assert (Hc2 : consistent (if isRunning a1 then fst (stop a1 d) else a1) = true).
    { destruct (isRunning a1); [by apply stop_consistent|done]. }
    revert Hc2 Hb2. generalize (if isRunning a1 then fst (stop a1 d) else a1).
    intros a2 Hc2 Hb2. split; [by apply start_consistent|].
    unfold start. destruct (isRunning a2); [done|]. simpl.
    by destruct (stdin child); [destruct (stdout child && stderr child)|].
  - rewrite on_data_split. simpl. split; [done|]. apply last_split_no_sep.
  - split; [|done]. unfold consistent. done.
  - split; [|done]. unfold consistent. done.
Qed.

Lemma agent_run_invariant es : ∀ a,
  consistent a = true ∧ LF ∉ buffer a →
  consistent (agent_run JSON_parse a es) = true ∧ LF ∉ buffer (agent_run JSON_parse a es).
Proof.
  induction es as [|e es IH]; intros a Ha; [done|].
  apply IH. by apply agent_step_invariant.
Qed.

(** In every state an agent reaches from its creation, whatever the calls
    and the events: the buffer holds no line feed (every complete line has
    been handed on); the agent is alive exactly when its running flag is
    set; and a message is written, without error, exactly when the agent is
    running. *)
Theorem reachable_agent o es message :
  let a := agent_run JSON_parse (new o) es in
  (LF ∉ buffer a)
  ∧ isAlive a = isRunning a
  ∧ (snd (sendMessage a message) = Return tt ↔ isRunning a = true).
Proof.
  destruct (agent_run_invariant es (new o)) as [Hc Hb].
  { split; [done|]. apply not_elem_of_nil. }
  revert Hc Hb. generalize (agent_run JSON_parse (new o) es). intros a Hc Hb.
  simpl. split; [done|].
  unfold consistent in Hc. unfold isAlive, sendMessage.
  destruct (isRunning a), (process a) as [p|]; try done.
  destruct (stdin p); [|done]. done.
Qed.

(** A start that finds a stream missing raises its error after the handle
    has been stored: the agent holds the process without running, and a
    later [stop] returns at once, sending the process no signal. *)
Theorem failed_start_keeps_process a child later :
  isRunning a = false →
  piped child = false →
  let a' := fst (start a child) in
  snd (start a child) = Throw (Error (lit "Failed to create cursor-agent process streams"))
  ∧ process a' = Some child
  ∧ isAlive a' = false
  ∧ stop a' later = (a', not_running).
Proof.
  intros Hr Hp. unfold start, piped in *. rewrite Hr.
  destruct (stdin child); [destruct (stdout child && stderr child); [done|]|];
    simpl; unfold isAlive, stop; simpl; by rewrite Hr.
Qed.

(** [resumeSession] on an agent, running or not, with a process that has
    its streams: the agent runs the new process, its options name the
    session to resume, and the arguments of the start end with [--resume],
    the id (when it is not empty), [-p] and the empty prompt; the buffer is
    not reset, so a fragment held from the old process stays. *)
Theorem resumeSession_restarts a id exit_delay child :
  consistent a = true →
  piped child = true →
  let a' := fst (resumeSession a id exit_delay child) in
  snd (resumeSession a id exit_delay child) = Return tt
  ∧ isAlive a' = true
  ∧ process a' = Some child
  ∧ sessionId (options a') = Some id
  ∧ buffer a' = buffer a
  ∧ (truthy id = true → ∃ before, start_args (options a') = before ++ [lit "--resume"; id; lit "-p"; []]).
Proof.
  intros Hc Hp. unfold resumeSession, piped in *.
  assert (Hstopped :
    let a2 := if isRunning (set_sessionId a id)
              then fst (stop (set_sessionId a id) exit_delay) else set_sessionId a id in
    isRunning a2 = false ∧ buffer a2 = buffer a ∧ sessionId (options a2) = Some id
    ∧ options a2 = options (set_sessionId a id)).
  { unfold consistent in Hc. simpl. unfold stop. simpl.
    destruct (isRunning a) eqn:Hr; [|by rewrite ?Hr].
    destruct (process a) as [p|]; [|done].
    by destruct exit_delay as [d|]; [destruct (d <? grace_ms)%N|]. }
  revert Hstopped.
  generalize (if isRunning (set_sessionId a id)
              then fst (stop (set_sessionId a id) exit_delay) else set_sessionId a id).
  intros a2 (Hr2 & Hb2 & Hs2 & Ho2). unfold start. rewrite Hr2.
  destruct (stdin child) eqn:Hs; [|done]. rewrite Hp. simpl.
  unfold isAlive. simpl. repeat split; try done.
  intros Hid. unfold start_args. rewrite Hs2. unfold given at 2. rewrite Hid.
  exists ((match given (model (options a2)) with
           | Some m => [lit "--model"; m]
           | None => []
           end)
          ++ (match outputFormat (options a2) with
              | Some format_text => [lit "--output-format"; lit "text"]
              | Some format_json => [lit "--output-format"; lit "json"]
              | None => []
              end)).
  by rewrite <- app_assoc.
Qed.

(** Messages sent to a running agent reach the standard input of its
    process in the order of the calls, each followed by one line feed, and
    nothing else is written. *)
Theorem sendMessage_in_order ms : ∀ a p,
  isRunning a = true → process a = Some p → piped p = true →
  fold_left (λ a m, fst (sendMessage a m)) ms a
  = set_process a (Some (written_to p (map (λ m, content m ++ [LF]) ms))).
Proof.
  induction ms as [|m ms IH]; intros a p Hr Hp Hs; simpl.
  - unfold written_to, or_default_written, piped in *.
    destruct a as [pr b r o], p as [i so se sg]; simpl in *. subst.
    destruct i; [|done]. by rewrite app_nil_r.
  - unfold piped in Hs. destruct (stdin p) as [w|] eqn:Hw; [|done].
    unfold sendMessage at 2. rewrite Hr, Hp, Hw. simpl.
    erewrite IH; [|done|done|by unfold piped].
    unfold set_process, written_to, or_default_written. simpl. rewrite Hw.
    by rewrite <- app_assoc.
Qed.

(** After [stop], and after the exit or an error of the process, the agent
    writes nothing: [sendMessage] raises "CursorAgent is not running" and
    leaves the state as it is. *)
Theorem stopped_agent_rejects_messages a exit_delay message :
  sendMessage (fst (stop a exit_delay)) message
  = (fst (stop a exit_delay), Throw (Error (lit "CursorAgent is not running")))
  ∧ sendMessage (on_exit a) message
    = (on_exit a, Throw (Error (lit "CursorAgent is not running")))
  ∧ sendMessage (on_error a) message
    = (on_error a, Throw (Error (lit "CursorAgent is not running"))).
Proof.
  split; [|done]. unfold stop, sendMessage.
  destruct (isRunning a) eqn:Hr, (process a) as [p|] eqn:Hp; simpl; rewrite ?Hr, ?Hp; try done.
  by destruct exit_delay as [d|]; [destruct (d <? grace_ms)%N|].
Qed.

End Lifecycle.

Lemma failed_start_keeps_process_witness :
  let child := {| CursorAgent.stdin := Some []; CursorAgent.stdout := true;
                  CursorAgent.stderr := false; CursorAgent.signals := [] |} in
  let a' := fst (CursorAgent.start (CursorAgent.new CursorAgent.no_options) child) in
  snd (CursorAgent.start (CursorAgent.new CursorAgent.no_options) child)
  = Throw (Error (lit "Failed to create cursor-agent process streams"))
  ∧ CursorAgent.process a' = Some child
  ∧ CursorAgent.isAlive a' = false
  ∧ CursorAgent.stop a' None = (a', CursorAgent.not_running).
Proof.
  intros child.
  apply (failed_start_keeps_process (CursorAgent.new CursorAgent.no_options) child None);
    reflexivity.
Defined.

Lemma resumeSession_restarts_witness :
  let a' := fst (CursorAgent.resumeSession CursorAgent.started (lit "abc") None
                   CursorAgent.piped_child) in
  snd (CursorAgent.resumeSession CursorAgent.started (lit "abc") None CursorAgent.piped_child)
  = Return tt
  ∧ CursorAgent.isAlive a' = true
  ∧ CursorAgent.process a' = Some CursorAgent.piped_child
  ∧ CursorAgent.sessionId (CursorAgent.options a') = Some (lit "abc")
  ∧ CursorAgent.buffer a' = CursorAgent.buffer CursorAgent.started
  ∧ (truthy (lit "abc") = true →
     ∃ before, CursorAgent.start_args (CursorAgent.options a')
               = before ++ [lit "--resume"; lit "abc"; lit "-p"; []]).
Proof.
  apply (resumeSession_restarts CursorAgent.started (lit "abc") None CursorAgent.piped_child);
    reflexivity.
Defined.

Lemma sendMessage_in_order_witness :
  let m1 := {| CursorAgent.type := CursorAgent.user; CursorAgent.content := lit "one";
               CursorAgent.message_sessionId := None |} in
  let m2 := {| CursorAgent.type := CursorAgent.user; CursorAgent.content := lit "two";
               CursorAgent.message_sessionId := None |} in
  fold_left (λ a m, fst (CursorAgent.sendMessage a m)) [m1; m2] CursorAgent.started
  = CursorAgent.set_process CursorAgent.started
      (Some (written_to CursorAgent.piped_child [lit "one" ++ [LF]; lit "two" ++ [LF]])).
Proof.
  intros m1 m2.
  apply (sendMessage_in_order [m1; m2] CursorAgent.started CursorAgent.piped_child);
    reflexivity.
Defined.

(** ** [CursorAcpAgent]: sessions *)

Section MoreSessions.

Import CursorAgent Acp.

Variable JSON_parse : str -> option json.

(** A second [cancel] changes nothing more. *)
Theorem cancel_idempotent a id :
  fst (cancel (fst (cancel a id)) id) = fst (cancel a id).
Proof.
  unfold cancel at 2 3. destruct (lookup_session a id) as [s| |[]|] eqn:Hl; simpl.
  - assert (lookup_session (set_session a id (set_cancelled s true)) id
            = own (set_cancelled s true)) as Hl'.
    { unfold lookup_session. simpl. by rewrite lookup_insert_eq. }
    unfold cancel. rewrite Hl'. simpl. unfold set_session. simpl.
    by rewrite insert_insert_eq.
  - assert (lookup_session (set_builtin_cancelled a id true) id = inherited) as Hl'.
    { unfold lookup_session in *. simpl.
      destruct (sessions a !! id); [done|].
      destruct (bool_decide (id ∈ Object_prototype)); [done|].
      destruct (bool_decide (id = lit "cancelled")); [|done].
      by destruct (builtin_cancelled a !! lit "__proto__") as [[]|]. }
    unfold cancel. rewrite Hl'. simpl. unfold set_builtin_cancelled. simpl.
    by rewrite insert_insert_eq.
  - unfold cancel. by rewrite Hl.
  - unfold cancel. by rewrite Hl.
  - unfold cancel. by rewrite Hl.
Qed.

(** Sessions do not touch one another: an event that names one session
    leaves the record of every other session, and the notifications sent
    for it, as they were. *)
Theorem sessions_independent a e id :
  event_session e ≠ id →
  sessions (step JSON_parse a e) !! id = sessions a !! id
  ∧ updates_for id (step JSON_parse a e) = updates_for id a.
Proof.
  intros Hne. destruct e as [id' cwd child|params|id'|id' m|id' data|id'|id']; simpl in *.
  - unfold updates_for. rewrite newSession_updates. split; [|done].
    unfold newSession. destruct (start _ _) as [agent' [[]|err]]; simpl; [|done].
    by rewrite lookup_insert_ne.
  - unfold updates_for. rewrite prompt_updates. split; [|done]. by apply prompt_other.
  - unfold updates_for. rewrite cancel_updates. split; [|done].
    unfold cancel. destruct (lookup_session a id') as [s'| |[]|]; simpl; [|done..].
    by rewrite lookup_insert_ne.
  - rewrite handle_sessions. split; [done|]. by apply handle_other.
  - destruct (sessions a !! id') as [s'|]; [|done].
    destruct (on_data JSON_parse (cursorAgent s') data) as [agent' ms].
    rewrite forward_all_sessions, forward_all_other by done. simpl.
    by rewrite lookup_insert_ne.
  - destruct (sessions a !! id') as [s'|]; [|done]. simpl.
    by rewrite lookup_insert_ne.
  - destruct (sessions a !! id') as [s'|]; [|done]. simpl.
    by rewrite lookup_insert_ne.
Qed.

(** The messages of one event, on a session that is not cancelled: one
    notification for each message whose content can be read, in the order
    of the messages. *)
Lemma forward_all_active ms : ∀ a id s,
  sessions a !! id = Some s → cancelled s = false →
  forward_all a id ms
  = {| sessions := sessions a; builtin_cancelled := builtin_cancelled a;
       client_updates := client_updates a ++ chunks_for id ms |}.
Proof.
  induction ms as [|m ms IH]; intros a id s Hs Hc; simpl.
  - unfold chunks_for. simpl. rewrite app_nil_r. by destruct a.
  - unfold handleCursorAgentMessage at 1, lookup_session. rewrite Hs, Hc.
    unfold chunks_for. simpl.
    destruct (message_content m) as [value|]; simpl.
    + erewrite IH; [|done..]. simpl. unfold chunks_for. by rewrite <- app_assoc.
    + erewrite IH; [|done..]. done.
Qed.

Lemma data_on_active_session a id s data :
  sessions a !! id = Some s → cancelled s = false →
  step JSON_parse a (subprocess_data id data)
  = {| sessions :=
         <[id := {| cursorAgent := fst (on_data JSON_parse (cursorAgent s) data);
                    cancelled := cancelled s; messages := messages s |}]> (sessions a);
       builtin_cancelled := builtin_cancelled a;
       client_updates :=
         client_updates a ++ chunks_for id (snd (on_data JSON_parse (cursorAgent s) data)) |}.
Proof.
  intros Hs Hc. cbn [step]. rewrite Hs.
  destruct (on_data JSON_parse (cursorAgent s) data) as [agent' ms].
  erewrite forward_all_active; [done|apply lookup_insert_eq|done].
Qed.

(** Output of the subprocess of a session that is not cancelled, from an
    empty buffer: complete lines and a fragment give, in the order of the
    lines, one notification for each line that is not blank and whose
    classified message has a readable content; the fragment waits in the
    buffer of the session. *)
Theorem data_forwarded_in_order a id s lines frag :
  sessions a !! id = Some s → cancelled s = false →
  buffer (cursorAgent s) = [] →
  Forall (λ l, LF ∉ l) lines → LF ∉ frag →
  let a' := step JSON_parse a (subprocess_data id (flat_map (λ l, l ++ [LF]) lines ++ frag)) in
  client_updates a'
  = client_updates a
    ++ chunks_for id (map (classify JSON_parse) (List.filter (λ l, truthy (trim l)) lines))
  ∧ (buffer ∘ cursorAgent <$> sessions a' !! id) = Some frag.
Proof.
  intros Hs Hc Hb Hl Hf a'. subst a'.
  rewrite (data_on_active_session a id s) by done. simpl.
  rewrite lookup_insert_eq. simpl.
  rewrite Hb, app_nil_l, split_lines by done.
  rewrite last_snoc, removelast_last. simpl. by rewrite emit_lines.
Qed.

Lemma fallback_content line :
  message_content
    (JObject [(lit "type", JString (lit "assistant")); (lit "content", JString line)])
  = Some (Some (JString line)).
Proof.
  cbn [message_content field].
  destruct (decide (lit "content" = lit "type")) as [H|_]; [by vm_compute in H|].
  by destruct (decide (lit "content" = lit "content")).
Qed.

(** A line of plain text, one that is not blank and that [JSON.parse]
    rejects, arriving whole for a stored session that is not cancelled and
    whose agent has an empty buffer, reaches the client as it is: one chunk
    whose text is the line. *)
Theorem plain_line_forwarded a id s line :
  sessions a !! id = Some s → cancelled s = false →
  buffer (cursorAgent s) = [] →
  LF ∉ line → truthy (trim line) = true → JSON_parse line = None →
  client_updates (step JSON_parse a (subprocess_data id (line ++ [LF])))
  = client_updates a ++ [chunk_for id (Some (JString line))].
Proof.
  intros Hs Hc Hb Hl Ht Hp.
  rewrite (data_on_active_session a id s) by done. simpl.
  replace (line ++ [LF]) with (flat_map (λ l, l ++ [LF]) [line] ++ [])
    by (simpl; by rewrite !app_nil_r).
  rewrite Hb, app_nil_l, split_lines; [|by constructor|apply not_elem_of_nil].
  simpl. unfold emit_line, classify. rewrite Ht, Hp. simpl.
  unfold chunks_for. cbn [omap list_omap]. by rewrite fallback_content.
Qed.

(** A new session whose process has its streams is stored, not cancelled,
    with an empty log, and is ready: nothing has been sent to the client, a
    prompt on it returns [end_turn], and a message of its subprocess that
    has a content is forwarded. *)
Theorem new_session_ready a id cwd child blocks :
  piped child = true →
  let a1 := fst (newSession a id cwd child) in
  snd (newSession a id cwd child) = Return id
  ∧ (∃ s, sessions a1 !! id = Some s ∧ cancelled s = false ∧ messages s = []
          ∧ process (cursorAgent s) = Some child)
  ∧ client_updates a1 = client_updates a
  ∧ snd (prompt a1 {| Acp.sessionId := id; prompt_blocks := blocks |})
    = Return {| stopReason := end_turn |}
  ∧ (∀ m value, message_content m = Some value →
       client_updates (fst (handleCursorAgentMessage a1 id m))
       = client_updates a ++ [chunk_for id value]).
Proof.
  intros Hp. unfold piped in Hp. unfold newSession, start. simpl.
  destruct (stdin child) as [w|] eqn:Hw; [|done]. rewrite Hp. simpl.
  split; [done|]. split.
  { rewrite lookup_insert_eq. eexists. by repeat split. }
  split; [done|]. split.
  - unfold prompt, lookup_session. simpl. rewrite lookup_insert_eq. simpl.
    unfold prompt_try, sendMessage. simpl. by rewrite Hw.
  - intros m value Hm.
    erewrite handle_active; [done|apply lookup_insert_eq|done|done].
Qed.

Lemma start_without_streams b child :
  isRunning b = false → piped child = false →
  start b child
  = (set_process b (Some child),
     Throw (Error (lit "Failed to create cursor-agent process streams"))).
Proof.
  intros Hr Hp. unfold start, piped in *. rewrite Hr.
  destruct (stdin child); [by rewrite Hp|done].
Qed.

(** A new session whose process lacks a stream is not stored: the error of
    [start] is raised, the agent is as before, and a prompt on the id still
    finds no session. *)
Theorem failed_new_session_not_stored a id cwd child blocks :
  piped child = false →
  lookup_session a id = absent →
  newSession a id cwd child
  = (a, Throw (Error (lit "Failed to create cursor-agent process streams")))
  ∧ snd (prompt (fst (newSession a id cwd child))
           {| Acp.sessionId := id; prompt_blocks := blocks |})
    = Throw (Error (lit "Session not found")).
Proof.
  intros Hp Ha. unfold newSession.
  rewrite start_without_streams by done. simpl.
  split; [done|]. unfold prompt. simpl. by rewrite Ha.
Qed.

Lemma prompt_clears_flag a params s :
  sessions a !! Acp.sessionId params = Some s →
  ∃ s', sessions (fst (prompt a params)) !! Acp.sessionId params = Some s'
        ∧ cancelled s' = false.
Proof.
  intros Hs. unfold prompt, lookup_session. rewrite Hs. simpl. unfold prompt_try.
  destruct (sendMessage _ _) as [agent' [[]|err]]; simpl;
    rewrite lookup_insert_eq; eauto.
Qed.

(** A prompt is logged when, and only when, it has been written: on
    end_turn the log of the session has one entry more, the translated
    prompt, and the process has received its content and a line feed; on
    refusal the log and the process are as before. *)
Theorem prompt_logs_what_it_sends a params s :
  sessions a !! Acp.sessionId params = Some s →
  let message := promptToCursorAgent params in
  ∃ s', sessions (fst (prompt a params)) !! Acp.sessionId params = Some s'
        ∧ ((snd (prompt a params) = Return {| stopReason := end_turn |}
            ∧ messages s' = messages s ++ [message]
            ∧ ∃ p, process (cursorAgent s) = Some p
                   ∧ process (cursorAgent s')
                     = Some (written_to p [content message ++ [LF]]))
           ∨ (snd (prompt a params) = Return {| stopReason := refusal |}
              ∧ messages s' = messages s
              ∧ cursorAgent s' = cursorAgent s)).
Proof.
  intros Hs message. unfold prompt, lookup_session. rewrite Hs. simpl.
  unfold prompt_try, sendMessage. simpl.
  destruct (isRunning (cursorAgent s)) eqn:Hr, (process (cursorAgent s)) as [p|] eqn:Hp;
    simpl; try (rewrite lookup_insert_eq; eexists; split; [done|right; by repeat split]).
  destruct (stdin p) as [w|] eqn:Hw; simpl;
    [|rewrite lookup_insert_eq; eexists; split; [done|right; by repeat split]].
  rewrite lookup_insert_eq. eexists. split; [done|]. left. simpl.
  split; [done|]. split; [done|]. exists p. split; [done|].
  unfold written_to, or_default_written. by rewrite Hw.
Qed.

(** One event on a session whose agent does not run, the event not storing
    a new session under its id: the agent still does not run, on the same
    process. *)
Lemma step_keeps_exited a id s e :
  sessions a !! id = Some s → isRunning (cursorAgent s) = false → creates id e = false →
  ∃ s', sessions (step JSON_parse a e) !! id = Some s'
        ∧ isRunning (cursorAgent s') = false
        ∧ process (cursorAgent s') = process (cursorAgent s).
Proof.
  intros Hs Hr He.
  destruct e as [id' cwd child|params|id'|id' m|id' data|id'|id']; cbn [step creates] in *.
  - apply bool_decide_eq_false in He.
    unfold newSession. destruct (start _ _) as [agent' [[]|err]]; simpl; [|eauto].
    rewrite lookup_insert_ne by done. eauto.
  - destruct (decide (Acp.sessionId params = id)) as [Heq|Hne].
    + unfold prompt, lookup_session. rewrite Heq, Hs. simpl.
      unfold prompt_try, sendMessage. simpl. rewrite Hr. simpl.
      rewrite ?Heq, lookup_insert_eq. eauto.
    + rewrite prompt_other by done. eauto.
  - unfold cancel. destruct (lookup_session a id') as [s'| |[]|] eqn:Hl; simpl; [|eauto..].
    destruct (decide (id' = id)) as [->|Hne].
    + unfold lookup_session in Hl. rewrite Hs in Hl. injection Hl as <-.
      rewrite lookup_insert_eq. eauto.
    + rewrite lookup_insert_ne by done. eauto.
  - rewrite handle_sessions. eauto.
  - destruct (sessions a !! id') as [s'|] eqn:Hs'; [|eauto].
    rewrite on_data_split. rewrite forward_all_sessions. simpl.
    destruct (decide (id' = id)) as [->|Hne].
    + assert (s' = s) as -> by congruence. rewrite lookup_insert_eq. eauto.
    + rewrite lookup_insert_ne by done. eauto.
  - destruct (sessions a !! id') as [s'|] eqn:Hs'; [|eauto]. simpl.
    destruct (decide (id' = id)) as [->|Hne].
    + assert (s' = s) as -> by congruence. rewrite lookup_insert_eq. eauto.
    + rewrite lookup_insert_ne by done. eauto.
  - destruct (sessions a !! id') as [s'|] eqn:Hs'; [|eauto]. simpl.
    destruct (decide (id' = id)) as [->|Hne].
    + assert (s' = s) as -> by congruence. rewrite lookup_insert_eq. eauto.
    + rewrite lookup_insert_ne by done. eauto.
Qed.

Lemma run_keeps_exited es : ∀ a id s,
  sessions a !! id = Some s → isRunning (cursorAgent s) = false →
  Forall (λ e, creates id e = false) es →
  ∃ s', sessions (run JSON_parse a es) !! id = Some s'
        ∧ isRunning (cursorAgent s') = false
        ∧ process (cursorAgent s') = process (cursorAgent s).
Proof.
  induction es as [|e es IH]; intros a id s Hs Hr Hes; [simpl; eauto|].
  inversion Hes as [|? ? He Hes']; subst.
  destruct (step_keeps_exited a id s e Hs Hr He) as (s1 & Hs1 & Hr1 & Hp1).
  destruct (IH (step JSON_parse a e) id s1 Hs1 Hr1 Hes') as (s' & Hs' & Hr' & Hp').
  exists s'. split; [done|]. split; [done|]. congruence.
Qed.

(** A session whose subprocess has exited, or has reported an error, is of
    no further use: whatever happens next, every prompt on it is refused
    and nothing is written to the process; the agent never starts a process
    for it again. *)
Theorem exited_session_refuses_prompts a id s e0 es params :
  sessions a !! id = Some s →
  e0 = subprocess_exit id ∨ e0 = subprocess_error id →
  Forall (λ e, creates id e = false) es →
  Acp.sessionId params = id →
  let a' := run JSON_parse (step JSON_parse a e0) es in
  snd (prompt a' params) = Return {| stopReason := refusal |}
  ∧ ∃ s', sessions a' !! id = Some s'
          ∧ process (cursorAgent s') = process (cursorAgent s).
Proof.
  intros Hs He0 Hes Hid a'.
  assert (Hexit : ∃ s0, sessions (step JSON_parse a e0) !! id = Some s0
                        ∧ isRunning (cursorAgent s0) = false
                        ∧ process (cursorAgent s0) = process (cursorAgent s)).
  { destruct He0 as [->| ->]; cbn [step]; rewrite Hs; simpl;
      rewrite lookup_insert_eq; eauto. }
  destruct Hexit as (s0 & Hs0 & Hr0 & Hp0).
  destruct (run_keeps_exited es _ id s0 Hs0 Hr0 Hes) as (s' & Hs' & Hr' & Hp').
  fold a' in Hs'. split; [|exists s'; split; [done|congruence]].
  unfold prompt, lookup_session. rewrite Hid, Hs'. simpl.
  unfold prompt_try, sendMessage. simpl. by rewrite Hr'.
Qed.

Lemma run_keeps_cancelled es : ∀ a id s,
  sessions a !! id = Some s → cancelled s = true →
  Forall (λ e, resets id e = false) es →
  (∃ s', sessions (run JSON_parse a es) !! id = Some s' ∧ cancelled s' = true)
  ∧ updates_for id (run JSON_parse a es) = updates_for id a.
Proof.
  induction es as [|e es IH]; intros a id s Hs Hc Hes; [simpl; eauto|].
  inversion Hes as [|? ? He Hes']; subst.
  destruct (step_keeps_cancelled JSON_parse a id s e Hs Hc He) as [(s1 & Hs1 & Hc1) Hu1].
  destruct (IH (step JSON_parse a e) id s1 Hs1 Hc1 Hes') as [Hk Hu].
  split; [done|]. change (run JSON_parse a (e :: es)) with (run JSON_parse (step JSON_parse a e) es).
  congruence.
Qed.

Lemma updates_for_chunks id ms :
  List.filter (λ n, bool_decide (notification_sessionId n = id)) (chunks_for id ms)
  = chunks_for id ms.
Proof.
  unfold chunks_for. induction (omap message_content ms) as [|v vs IH]; simpl in *; [done|].
  rewrite bool_decide_eq_true_2 by done. by f_equal.
Qed.

(** What a cancelled session has dropped is not sent later: after the
    prompt that clears the flag, the notifications of the session are those
    from before the cancellation and those of the messages that come after
    the prompt. *)
Theorem dropped_messages_not_replayed a id s es params ms :
  sessions a !! id = Some s →
  Forall (λ e, resets id e = false) es →
  Acp.sessionId params = id →
  let a1 := run JSON_parse (fst (cancel a id)) es in
  let a2 := fst (prompt a1 params) in
  updates_for id (forward_all a2 id ms) = updates_for id a ++ chunks_for id ms.
Proof.
  intros Hs Hes Hid a1 a2.
  assert (Hc0 : sessions (fst (cancel a id)) !! id = Some (set_cancelled s true)).
  { unfold cancel, lookup_session. rewrite Hs. simpl. apply lookup_insert_eq. }
  destruct (run_keeps_cancelled es _ id _ Hc0 eq_refl Hes) as [(s1 & Hs1 & Hc1) Hu1].
  fold a1 in Hs1, Hu1.
  assert (Hu0 : updates_for id (fst (cancel a id)) = updates_for id a).
  { unfold updates_for. by rewrite cancel_updates. }
  destruct (prompt_clears_flag a1 params s1) as (s2 & Hs2 & Hc2); [by rewrite Hid|].
  fold a2 in Hs2. rewrite Hid in Hs2.
  rewrite (forward_all_active ms a2 id s2) by done.
  rewrite updates_for_app, updates_for_chunks.
  unfold a2, updates_for at 1. rewrite prompt_updates. fold (updates_for id a1). congruence.
Qed.

End MoreSessions.

(** ** The translation of prompts *)

Section PromptTranslation.

Import CursorAgent Acp.

Lemma head_rev {A} (l : list A) : head (rev l) = last l.
Proof.
  induction l as [|x l _] using rev_ind; [done|].
  by rewrite rev_unit, last_snoc.
Qed.

Lemma last_rev {A} (l : list A) : last (rev l) = head l.
Proof. destruct l as [|x l]; [done|]. simpl. by rewrite last_snoc. Qed.

Lemma trimStart_head s c : head (trimStart s) = Some c → is_white c = false.
Proof.
  induction s as [|x s IH]; simpl; [done|].
  destruct (is_white x) eqn:E; [done|]. simpl. by intros [= <-].
Qed.

(** [trimStart] drops a prefix of white space. *)
Lemma trimStart_prefix s :
  ∃ before, s = before ++ trimStart s ∧ Forall (λ c, is_white c = true) before.
Proof.
  induction s as [|x s (before & Hs & Hw)]; simpl.
  - by exists [].
  - destruct (is_white x) eqn:E.
    + exists (x :: before). split; [by rewrite Hs at 1|by constructor].
    + by exists [].
Qed.

(** [trim] drops white space at both ends, and nothing else. *)
Lemma trim_spec s :
  ∃ before after,
    s = before ++ trim s ++ after
    ∧ Forall (λ c, is_white c = true) before
    ∧ Forall (λ c, is_white c = true) after
    ∧ (∀ c, head (trim s) = Some c → is_white c = false)
    ∧ (∀ c, last (trim s) = Some c → is_white c = false).
Proof.
  unfold trim.
  destruct (trimStart_prefix s) as (before & Hs & Hb).
  destruct (trimStart_prefix (rev (trimStart s))) as (tail & Ht & Hw).
  exists before, (rev tail). split; [|split; [done|split; [|split]]].
  - rewrite Hs at 1. f_equal. rewrite <- rev_app_distr, <- Ht. by rewrite rev_involutive.
  - apply Forall_forall. intros c Hc. apply list_elem_of_In, in_rev, list_elem_of_In in Hc.
    by eapply Forall_forall in Hw.
  - intros c. rewrite head_rev. intros Hl.
    assert (last (rev (trimStart s)) = Some c) as Hlast.
    { rewrite Ht, last_app, Hl. done. }
    rewrite last_rev in Hlast. by apply trimStart_head in Hlast.
  - intros c. rewrite last_rev. apply trimStart_head.
Qed.

(** The content sent for a prompt is the concatenation of what its blocks
    give, in their order, without the white space at its two ends: only
    white space is removed, and the content neither starts nor ends with
    white space. *)
Theorem prompt_content_trimmed prompt :
  let raw := flat_map chunk_text (prompt_blocks prompt) in
  let sent := content (promptToCursorAgent prompt) in
  ∃ before after,
    raw = before ++ sent ++ after
    ∧ Forall (λ c, is_white c = true) before
    ∧ Forall (λ c, is_white c = true) after
    ∧ (∀ c, head sent = Some c → is_white c = false)
    ∧ (∀ c, last sent = Some c → is_white c = false).
Proof. apply trim_spec. Qed.

Lemma passed_over_empty chunk : passed_over chunk = true → chunk_text chunk = [].
Proof.
  destruct chunk as [t|uri|[uri t|uri b]|data mime [u|]|]; simpl; try done.
  - destruct (truthy data); [done|]. by destruct (truthy u).
  - by destruct (truthy data).
Qed.

(** Blocks that carry nothing for the subprocess (a resource without text, an
    image with neither data nor uri, a block of an unknown type) can be
    left out of a prompt: the message sent is the same. *)
Theorem passed_over_blocks_add_nothing id blocks :
  promptToCursorAgent
    {| Acp.sessionId := id; prompt_blocks := List.filter (λ b, negb (passed_over b)) blocks |}
  = promptToCursorAgent {| Acp.sessionId := id; prompt_blocks := blocks |}.
Proof.
  unfold promptToCursorAgent. simpl. f_equal. f_equal.
  induction blocks as [|b blocks IH]; simpl; [done|].
  destruct (passed_over b) eqn:E; simpl.
  - by rewrite (passed_over_empty b E), IH.
  - by rewrite IH.
Qed.

(** The last segment of a text cut at a separator: what follows the last
    separator, or the whole text when there is none. *)
Lemma last_segment_suffix sep s :
  ∃ before,
    s = before ++ or_empty (last (split sep s))
    ∧ match removelast (split sep s) with
      | [] => before = []
      | _ :: _ => ∃ b, before = b ++ [sep]
      end.
Proof.
  induction s as [|c s (before & Hs & Hb)].
  - by exists [].
  - pose proof (split_nonempty sep s) as Hne.
    cbn [split].
    destruct (N.eqb_spec c sep) as [->|Hc].
    + destruct (split sep s) as [|l ls] eqn:E; [done|].
      exists (sep :: before).
      change (last ([] :: l :: ls)) with (last (l :: ls)).
      change (removelast ([] :: l :: ls)) with ([] :: removelast (l :: ls)).
      split.
      * by rewrite Hs at 1.
      * destruct (removelast (l :: ls)) eqn:Er.
        -- subst. by exists [].
        -- destruct Hb as [b ->]. by exists (sep :: b).
    + destruct (split sep s) as [|l ls] eqn:E; [done|].
      destruct ls as [|l' ls].
      * cbn [removelast] in *. subst before. exists [].
        split; [by rewrite Hs at 1|done].
      * change (last ((c :: l) :: l' :: ls)) with (last (l :: l' :: ls)).
        change (removelast ((c :: l) :: l' :: ls)) with ((c :: l) :: removelast (l' :: ls)).
        change (removelast (l :: l' :: ls)) with (l :: removelast (l' :: ls)) in Hb.
        destruct Hb as [b ->]. exists (c :: b ++ [sep]).
        split; [by rewrite Hs at 1|]. by exists (c :: b).
Qed.

(** The link of a file URI: its name is the file name, what follows the
    last slash of the path, and holds no slash; for a path that is empty or
    ends with a slash the name is the whole path.  The link always points to
    the URI as given. *)
Theorem file_link_name path :
  let uri := lit "file://" ++ path in
  ∃ name,
    formatUriAsLink uri = lit "[@" ++ name ++ lit "](" ++ uri ++ lit ")"
    ∧ ((name ≠ [] ∧ (47%N ∉ name)
        ∧ ∃ dir, path = dir ++ name ∧ (dir = [] ∨ ∃ d, dir = d ++ [47%N]))
       ∨ (name = path ∧ (path = [] ∨ ∃ d, path = d ++ [47%N]))).
Proof.
  intros uri. unfold formatUriAsLink.
  assert (startsWith (lit "file://") uri = true) as ->
    by (apply startsWith_prefix; by exists path).
  change (drop 7 uri) with path.
  unfold or_str, last_segment.
  destruct (last_segment_suffix 47 path) as (before & Hs & Hb).
  pose proof (last_split_no_sep 47 path) as Hno.
  destruct (or_empty (last (split 47 path))) as [|c name] eqn:E; simpl.
  - exists path. split; [done|]. right. split; [done|].
    rewrite app_nil_r in Hs. subst before.
    destruct (removelast (split 47 path)); [by left|right; done].
  - exists (c :: name). split; [done|]. left. split; [done|]. split; [done|].
    exists before. split; [done|].
    destruct (removelast (split 47 path)); [by left|by right].
Qed.

End PromptTranslation.

(** ** The cache of file contents *)

Section FileCacheProperties.

Import FileCache.

Lemma cache_set_lookup cache path content p :
  p ≠ lit "__proto__" →
  cache_set cache path content !! p
  = if decide (path = p) then Some content else cache !! p.
Proof.
  intros Hp. unfold cache_set.
  destruct (decide (path = lit "__proto__")) as [->|_].
  - by destruct (decide (lit "__proto__" = p)).
  - destruct (decide (path = p)) as [->|Hne].
    + apply lookup_insert_eq.
    + by apply lookup_insert_ne.
Qed.

Lemma file_step_lookup cache c p :
  p ≠ lit "__proto__" →
  file_step cache c !! p
  = match shown p c with Some content => Some content | None => cache !! p end.
Proof.
  intros Hp. destruct c as [params [content|e]|params [r|e]]; simpl; try done.
  - destruct (limit params) as [[|n]|], (line params) as [[|m]|]; simpl;
      rewrite ?cache_set_lookup by done; try done; by destruct (decide _).
  - rewrite cache_set_lookup by done. by destruct (decide _).
Qed.

(** After any sequence of file requests the cache holds, for a path, the
    content of the latest request that showed it: a write the client has
    accepted, or a read of the whole file (no limit and no line, or 0 for
    them) the client has answered.  Reads of a part and requests the client
    has failed leave the entry as it was.  No entry is ever made under the
    name [__proto__]. *)
Theorem cache_holds_latest_content cs : ∀ cache path,
  (path ≠ lit "__proto__" →
   fold_left file_step cs cache !! path
   = match last_shown path cs with
     | Some content => Some content
     | None => cache !! path
     end)
  ∧ (cache !! lit "__proto__" = None →
     fold_left file_step cs cache !! lit "__proto__" = None).
Proof.
  induction cs as [|c cs IH]; intros cache path; simpl; [done|]. split.
  - intros Hp. rewrite (proj1 (IH _ path) Hp).
    destruct (last_shown path cs); [done|]. by apply file_step_lookup.
  - intros Hn. apply (IH _ path).
    assert (∀ p v, cache_set cache p v !! lit "__proto__" = None) as Hset.
    { intros p v. unfold cache_set. destruct (decide (p = lit "__proto__")); [done|].
      by rewrite lookup_insert_ne. }
    destruct c as [params [content|e]|params [r|e]]; simpl; try done.
    by destruct (not_given (limit params) && not_given (line params)).
Qed.

End FileCacheProperties.

(** ** Instances *)

Lemma sessions_independent_witness :
  Acp.sessions (Acp.step CursorAgent.parse_null Acp.one_session (Acp.call_cancel (lit "s2")))
    !! lit "s1"
  = Acp.sessions Acp.one_session !! lit "s1"
  ∧ Acp.updates_for (lit "s1")
      (Acp.step CursorAgent.parse_null Acp.one_session (Acp.call_cancel (lit "s2")))
    = Acp.updates_for (lit "s1") Acp.one_session.
Proof.
  apply (sessions_independent CursorAgent.parse_null Acp.one_session
           (Acp.call_cancel (lit "s2")) (lit "s1")).
  compute_done.
Defined.

Lemma data_forwarded_in_order_witness :
  let a' := Acp.step CursorAgent.parse_null Acp.one_session
              (Acp.subprocess_data (lit "s1")
                 (flat_map (λ l, l ++ [LF]) [lit "hello"; []; lit "null"] ++ lit "par")) in
  Acp.client_updates a'
  = Acp.client_updates Acp.one_session
    ++ chunks_for (lit "s1")
         (map (CursorAgent.classify CursorAgent.parse_null)
            (List.filter (λ l, truthy (trim l)) [lit "hello"; []; lit "null"]))
  ∧ (CursorAgent.buffer ∘ Acp.cursorAgent <$> Acp.sessions a' !! lit "s1") = Some (lit "par").
Proof.
  apply (data_forwarded_in_order CursorAgent.parse_null Acp.one_session (lit "s1")
           Acp.session_s1 [lit "hello"; []; lit "null"] (lit "par")).
  - by vm_compute.
  - reflexivity.
  - reflexivity.
  - compute_done.
  - compute_done.
Defined.

Lemma plain_line_forwarded_witness :
  Acp.client_updates
    (Acp.step CursorAgent.parse_null Acp.one_session
       (Acp.subprocess_data (lit "s1") (lit "hello world" ++ [LF])))
  = Acp.client_updates Acp.one_session
    ++ [chunk_for (lit "s1") (Some (JString (lit "hello world")))].
Proof.
  apply (plain_line_forwarded CursorAgent.parse_null Acp.one_session (lit "s1")
           Acp.session_s1 (lit "hello world")).
  - by vm_compute.
  - reflexivity.
  - reflexivity.
  - compute_done.
  - reflexivity.
  - reflexivity.
Defined.

Lemma new_session_ready_witness :
  let a1 := fst (Acp.newSession Acp.one_session (lit "s2") (lit "/work")
                   CursorAgent.piped_child) in
  snd (Acp.newSession Acp.one_session (lit "s2") (lit "/work") CursorAgent.piped_child)
  = Return (lit "s2")
  ∧ (∃ s, Acp.sessions a1 !! lit "s2" = Some s ∧ Acp.cancelled s = false
          ∧ Acp.messages s = []
          ∧ CursorAgent.process (Acp.cursorAgent s) = Some CursorAgent.piped_child)
  ∧ Acp.client_updates a1 = Acp.client_updates Acp.one_session
  ∧ snd (Acp.prompt a1 {| Acp.sessionId := lit "s2";
                          Acp.prompt_blocks := [Acp.text_block (lit "hi")] |})
    = Return {| Acp.stopReason := Acp.end_turn |}
  ∧ (∀ m value, Acp.message_content m = Some value →
       Acp.client_updates (fst (Acp.handleCursorAgentMessage a1 (lit "s2") m))
       = Acp.client_updates Acp.one_session ++ [chunk_for (lit "s2") value]).
Proof.
  apply (new_session_ready Acp.one_session (lit "s2") (lit "/work") CursorAgent.piped_child
           [Acp.text_block (lit "hi")]).
  reflexivity.
Defined.

Lemma failed_new_session_not_stored_witness :
  let child := {| CursorAgent.stdin := None; CursorAgent.stdout := true;
                  CursorAgent.stderr := true; CursorAgent.signals := [] |} in
  Acp.newSession Acp.one_session (lit "s2") (lit "/work") child
  = (Acp.one_session, Throw (Error (lit "Failed to create cursor-agent process streams")))
  ∧ snd (Acp.prompt (fst (Acp.newSession Acp.one_session (lit "s2") (lit "/work") child))
           {| Acp.sessionId := lit "s2"; Acp.prompt_blocks := [] |})
    = Throw (Error (lit "Session not found")).
Proof.
  intros child.
  apply (failed_new_session_not_stored Acp.one_session (lit "s2") (lit "/work") child []).
  - reflexivity.
  - by vm_compute.
Defined.

Lemma prompt_logs_what_it_sends_witness :
  ∃ s', Acp.sessions (fst (Acp.prompt Acp.one_session Acp.prompt_s1)) !! lit "s1" = Some s'
        ∧ ((snd (Acp.prompt Acp.one_session Acp.prompt_s1)
            = Return {| Acp.stopReason := Acp.end_turn |}
            ∧ Acp.messages s'
              = Acp.messages Acp.session_s1 ++ [Acp.promptToCursorAgent Acp.prompt_s1]
            ∧ ∃ p, CursorAgent.process (Acp.cursorAgent Acp.session_s1) = Some p
                   ∧ CursorAgent.process (Acp.cursorAgent s')
                     = Some (written_to p
                               [CursorAgent.content (Acp.promptToCursorAgent Acp.prompt_s1)
                                ++ [LF]]))
           ∨ (snd (Acp.prompt Acp.one_session Acp.prompt_s1)
              = Return {| Acp.stopReason := Acp.refusal |}
              ∧ Acp.messages s' = Acp.messages Acp.session_s1
              ∧ Acp.cursorAgent s' = Acp.cursorAgent Acp.session_s1)).
Proof.
  apply (prompt_logs_what_it_sends Acp.one_session Acp.prompt_s1 Acp.session_s1).
  by vm_compute.
Defined.

Lemma exited_session_refuses_prompts_witness :
  let a' := Acp.run CursorAgent.parse_null
              (Acp.step CursorAgent.parse_null Acp.one_session (Acp.subprocess_exit (lit "s1")))
              [Acp.call_cancel (lit "s1"); Acp.call_prompt Acp.prompt_s1;
               Acp.subprocess_data (lit "s1") (lit "late" ++ [LF])] in
  snd (Acp.prompt a' Acp.prompt_s1) = Return {| Acp.stopReason := Acp.refusal |}
  ∧ ∃ s', Acp.sessions a' !! lit "s1" = Some s'
          ∧ CursorAgent.process (Acp.cursorAgent s')
            = CursorAgent.process (Acp.cursorAgent Acp.session_s1).
Proof.
  apply (exited_session_refuses_prompts CursorAgent.parse_null Acp.one_session (lit "s1")
           Acp.session_s1 (Acp.subprocess_exit (lit "s1"))
           [Acp.call_cancel (lit "s1"); Acp.call_prompt Acp.prompt_s1;
            Acp.subprocess_data (lit "s1") (lit "late" ++ [LF])]
           Acp.prompt_s1).
  - by vm_compute.
  - by left.
  - by repeat constructor.
  - reflexivity.
Defined.

Lemma dropped_messages_not_replayed_witness :
  let a1 := Acp.run CursorAgent.parse_null (fst (Acp.cancel Acp.one_session (lit "s1")))
              [Acp.subprocess_data (lit "s1") (lit "dropped" ++ [LF])] in
  let a2 := fst (Acp.prompt a1 Acp.prompt_s1) in
  Acp.updates_for (lit "s1") (Acp.forward_all a2 (lit "s1") [Acp.hello_record])
  = Acp.updates_for (lit "s1") Acp.one_session ++ chunks_for (lit "s1") [Acp.hello_record].
Proof.
  apply (dropped_messages_not_replayed CursorAgent.parse_null Acp.one_session (lit "s1")
           Acp.session_s1 [Acp.subprocess_data (lit "s1") (lit "dropped" ++ [LF])]
           Acp.prompt_s1 [Acp.hello_record]).
  - by vm_compute.
  - by repeat constructor.
  - reflexivity.
Defined.

Lemma cache_holds_latest_content_witness :
  let cs := [ FileCache.write_call
                {| FileCache.write_path := lit "/a"; FileCache.write_content := lit "one" |}
                (Return tt);
              FileCache.read_call
                {| FileCache.read_path := lit "/a"; FileCache.line := Some 0%N;
                   FileCache.limit := None |}
                (Return (lit "two"));
              FileCache.read_call
                {| FileCache.read_path := lit "/a"; FileCache.line := Some 3%N;
                   FileCache.limit := Some 2%N |}
                (Return (lit "part"));
              FileCache.write_call
                {| FileCache.write_path := lit "/a"; FileCache.write_content := lit "lost" |}
                (Throw (Error (lit "denied"))) ] in
  fold_left FileCache.file_step cs ∅ !! lit "/a" = Some (lit "two").
Proof.
  intros cs.
  exact (proj1 (cache_holds_latest_content cs ∅ (lit "/a")) ltac:(compute_done)).
Defined.
